(** * spf.net.resources: loading, unloading and prefetching of scripts and styles

    A shallow embedding of [src/net/resources.js].  The JavaScript code works
    on the live document, on the publish/subscribe registry, on the per-element
    dataset and on the timer queue of the event loop; here all of these are
    fields of one explicit [state], and every function of the source is a
    computation in a state-and-exception monad [M].  An exception raised by
    the source (a [TypeError] for a property read on [null], a [SyntaxError]
    for a selector that the engine rejects) keeps the mutations made before
    it, as in JavaScript.

    User callbacks are opaque function values: a callback is identified by a
    label and invoking it is recorded in the [log] of the state.  What a
    callback does when it runs is outside of the model.  Documents are flat:
    every element is a child of the head or of the body of its document.
    The class attribute of an element is a string of names separated by
    white space, and the selector engine behind [spf.dom.query] is a
    parameter of the host, as the hash function is.

    The file has the data model and the monad first, then the functions of
    the source in the order of the source, then the notions and the pages
    that the statements use, and then the proofs: equations of the
    primitives, relations that every computation keeps, and the properties
    of [load], [unload], [ignore] and [prefetch]. *)

From stdpp Require Import gmap strings list pretty.

Open Scope string_scope.
Open Scope list_scope.
Open Scope nat_scope.

(** ** Data model *)

(** A function value passed as [opt_callback]. *)
Definition callback := nat.

(** A DOM element.  [e_ref] is the identity of the node object: two nodes
    with the same attributes are still two nodes.  The attributes are the
    ones the source assigns. *)
Record element := Element {
  e_ref : nat;
  tagName : string;
  e_id : string;
  className : string;
  rel : string;
  src : string;
  href : string;
  data : string
}.

Global Instance element_eq_dec : EqDecision element.
Proof. solve_decision. Defined.

(** A document: the children of its [head], when it has one, and the
    children of its [body], both in document order. *)
Record doc := Doc {
  d_head : option (list element);
  d_body : list element
}.

(** The main document, or the content document of the iframe whose node
    identity is given. *)
Inductive docref :=
  | MainDoc
  | FrameDoc (iframe : nat).

(** The closure built at lines 75-85 of [load]: it captures the variable
    [el], the [id] and the snapshot [elsToRemove]. *)
Record hook := Hook {
  h_el : element;
  h_id : string;
  h_elsToRemove : list element
}.

(** A function handed to [setTimeout]: either a completion closure, or the
    deferred body of [prefetch] with the variables it captures. *)
Inductive task :=
  | THook (h : hook)
  | TPrefetch (type url id : string) (iframeEl : element).

(** What the code does to its collaborators, in the order it does it. *)
Inductive event :=
  | EvCreate (r : nat) (tag : string)
  | EvLocator (r : nat) (attr url : string)
  | EvInsert (d : docref) (r : nat)
  | EvRemove (r : nat)
  | EvMarker (r : nat) (key value : string)
  | EvSubscribe (topic : string) (cb : callback)
  | EvPublish (topic : string)
  | EvClear (topic : string)
  | EvCall (cb : callback)
  | EvIframe (r : nat) (id : string).

Record state := State {
  document : doc;
  frames : gmap nat doc;
  next_ref : nat;
  dataset : gmap (nat * string) string;
  subscriptions : gmap string (list callback);
  onload : gmap nat (option hook);
  timers : list task;
  log : list event
}.

Definition set_document (d : doc) (s : state) : state :=
  State d (frames s) (next_ref s) (dataset s) (subscriptions s) (onload s)
        (timers s) (log s).
Definition set_frames (f : gmap nat doc) (s : state) : state :=
  State (document s) f (next_ref s) (dataset s) (subscriptions s) (onload s)
        (timers s) (log s).
Definition set_next_ref (n : nat) (s : state) : state :=
  State (document s) (frames s) n (dataset s) (subscriptions s) (onload s)
        (timers s) (log s).
Definition set_dataset (d : gmap (nat * string) string) (s : state) : state :=
  State (document s) (frames s) (next_ref s) d (subscriptions s) (onload s)
        (timers s) (log s).
Definition set_subscriptions (p : gmap string (list callback)) (s : state)
  : state :=
  State (document s) (frames s) (next_ref s) (dataset s) p (onload s)
        (timers s) (log s).
Definition set_onload (h : gmap nat (option hook)) (s : state) : state :=
  State (document s) (frames s) (next_ref s) (dataset s) (subscriptions s) h
        (timers s) (log s).
Definition set_timers (t : list task) (s : state) : state :=
  State (document s) (frames s) (next_ref s) (dataset s) (subscriptions s)
        (onload s) t (log s).
Definition set_log (l : list event) (s : state) : state :=
  State (document s) (frames s) (next_ref s) (dataset s) (subscriptions s)
        (onload s) (timers s) l.

(** The empty page: a document with an empty head and an empty body. *)
Definition init : state :=
  State (Doc (Some []) []) ∅ 0 ∅ ∅ ∅ [] [].

(** ** The monad of the code: state, and an exception that keeps the state *)

(** The exceptions that the code can meet: a [TypeError], on a property
    read on [null] or [undefined], and the [SyntaxError] of the selector
    engine on a string that is not a selector. *)
Inductive exn :=
  | TypeErr
  | SyntaxErr.

Inductive outcome (A : Type) :=
  | Normal (a : A)
  | Raised (e : exn).
Arguments Normal {A} a.
Arguments Raised {A} e.

Abbreviation TypeError := (Raised TypeErr).
Abbreviation SyntaxError := (Raised SyntaxErr).

Definition M (A : Type) : Type := state → outcome A * state.

Definition ret {A} (a : A) : M A := λ s, (Normal a, s).
Definition bind {A B} (m : M A) (k : A → M B) : M B := λ s,
  match m s with
  | (Normal a, s') => k a s'
  | (Raised e, s') => (Raised e, s')
  end.
Definition throw {A} : M A := λ s, (TypeError, s).
Definition gets {A} (f : state → A) : M A := λ s, (Normal (f s), s).
Definition modify (f : state → state) : M unit := λ s, (Normal tt, f s).

Notation "'do' x <- m ; k" := (bind m (λ x, k))
  (at level 10, x name, m at level 100, k at level 200).
Notation "m ;;; k" := (bind m (λ _, k))
  (at level 100, k at level 200, right associativity).

Definition emit (e : event) : M unit :=
  modify (λ s, set_log (log s ++ [e]) s).

(** JavaScript truthiness of a value that is a string or absent. *)
Definition truthy (v : option string) : bool :=
  match v with
  | Some x => negb (bool_decide (x = ""))
  | None => false
  end.

(** ** The document *)

Definition doc_elements (d : doc) : list element :=
  default [] (d_head d) ++ d_body d.

Definition refs (l : list element) : list nat := e_ref <$> l.

Definition lookup_doc (d : docref) (s : state) : option doc :=
  match d with
  | MainDoc => Some (document s)
  | FrameDoc f => frames s !! f
  end.

Definition store_doc (d : docref) (x : doc) (s : state) : state :=
  match d with
  | MainDoc => set_document x s
  | FrameDoc f => set_frames (<[f := x]> (frames s)) s
  end.

Definition find_id (id : string) (l : list element) : option element :=
  head (filter (λ e, e_id e = id) l).

(** [doc.getElementById(id)]: the first element in document order with that
    id.  Reading the content document of something that has none is a
    [TypeError]. *)
Definition getElementById (d : docref) (id : string) : M (option element) :=
  λ s, match lookup_doc d s with
       | Some x => (Normal (find_id id (doc_elements x)), s)
       | None => (TypeError, s)
       end.

(** [document.createElement(tag)]: a new node with no attribute set. *)
Definition createElement (tag : string) : M element := λ s,
  let r := next_ref s in
  (Normal (Element r tag "" "" "" "" "" ""),
   set_log (log s ++ [EvCreate r tag]) (set_next_ref (S r) s)).

Definition with_id (id : string) (e : element) : element :=
  Element (e_ref e) (tagName e) id (className e) (rel e) (src e) (href e)
          (data e).
Definition with_className (c : string) (e : element) : element :=
  Element (e_ref e) (tagName e) (e_id e) c (rel e) (src e) (href e) (data e).
Definition with_rel (x : string) (e : element) : element :=
  Element (e_ref e) (tagName e) (e_id e) (className e) x (src e) (href e)
          (data e).
Definition with_src (u : string) (e : element) : element :=
  Element (e_ref e) (tagName e) (e_id e) (className e) (rel e) u (href e)
          (data e).
Definition with_href (u : string) (e : element) : element :=
  Element (e_ref e) (tagName e) (e_id e) (className e) (rel e) (src e) u
          (data e).
Definition with_data (u : string) (e : element) : element :=
  Element (e_ref e) (tagName e) (e_id e) (className e) (rel e) (src e)
          (href e) u.

(** [targetEl = doc.getElementsByTagName('head')[0] || doc.body], then
    [targetEl.insertBefore(el, targetEl.firstChild)] when [front], and
    [targetEl.appendChild(el)] otherwise. *)
Definition target_insert (front : bool) (e : element) (d : doc) : doc :=
  match d_head d with
  | Some h => Doc (Some (if front then e :: h else h ++ [e])) (d_body d)
  | None => Doc None (if front then e :: d_body d else d_body d ++ [e])
  end.

Definition insert_target (front : bool) (e : element) (d : docref) : M unit :=
  λ s, match lookup_doc d s with
       | Some x =>
           (Normal tt,
            set_log (log s ++ [EvInsert d (e_ref e)])
                    (store_doc d (target_insert front e x) s))
       | None => (TypeError, s)
       end.

(** [doc.body.appendChild(el)]. *)
Definition body_append (e : element) (d : docref) : M unit :=
  λ s, match lookup_doc d s with
       | Some x =>
           (Normal tt,
            set_log (log s ++ [EvInsert d (e_ref e)])
                    (store_doc d (Doc (d_head x) (d_body x ++ [e])) s))
       | None => (TypeError, s)
       end.

Definition remove_ref (r : nat) (l : list element) : list element :=
  filter (λ e, e_ref e ≠ r) l.

Definition doc_remove (r : nat) (d : doc) : doc :=
  Doc (remove_ref r <$> d_head d) (remove_ref r (d_body d)).

(** [el.parentNode]: the document whose head or body holds the node, or
    nothing ([null]) for a node that is not attached. *)
Definition parentNode (e : element) (s : state) : option docref :=
  if bool_decide (e_ref e ∈ refs (doc_elements (document s))) then Some MainDoc
  else
    (λ p : nat * doc, FrameDoc p.1) <$>
      head (filter (λ p : nat * doc, e_ref e ∈ refs (doc_elements p.2))
                   (map_to_list (frames s))).

(** [el.parentNode.removeChild(el)]; a [TypeError] when [parentNode] is
    [null]. *)
Definition removeChild_of_parent (e : element) : M unit := λ s,
  match parentNode e s with
  | Some d =>
      match lookup_doc d s with
      | Some x =>
          (Normal tt,
           set_log (log s ++ [EvRemove (e_ref e)])
                   (store_doc d (doc_remove (e_ref e) x) s))
      | None => (TypeError, s)
      end
  | None => (TypeError, s)
  end.

(** [setTimeout(fn, 0)]. *)
Definition setTimeout (t : task) : M unit :=
  modify (λ s, set_timers (timers s ++ [t]) s).

(** Invoking a user callback. *)
Definition call (cb : callback) : M unit := emit (EvCall cb).

(** ** Collaborators that are not part of the file *)

(** Modelled from the spec: [spf.pubsub.subscribe] is not among the sources;
    the spec gives [subscribe(topic, fn)], a topic-keyed registry whose
    subscribers are kept in registration order. *)
Definition subscribe (topic : string) (fn : callback) : M unit :=
  modify (λ s, set_subscriptions
                 (<[topic := default [] (subscriptions s !! topic) ++ [fn]]>
                    (subscriptions s)) s) ;;;
  emit (EvSubscribe topic fn).

Fixpoint call_all (fns : list callback) : M unit :=
  match fns with
  | [] => ret tt
  | fn :: rest => call fn ;;; call_all rest
  end.

(** Modelled from the spec: [spf.pubsub.publish] is not among the sources;
    the spec gives [publish(topic)], which runs all subscribers of the topic
    in registration order and then clears them. *)
Definition publish (topic : string) : M unit :=
  emit (EvPublish topic) ;;;
  do fns <- gets (λ s, default [] (subscriptions s !! topic)) ;
  call_all fns ;;;
  modify (λ s, set_subscriptions (delete topic (subscriptions s)) s).

(** Modelled from the spec: [spf.pubsub.clear] is not among the sources;
    the spec gives [clear(topic)], which drops the subscribers of the topic
    without running them. *)
Definition clear (topic : string) : M unit :=
  modify (λ s, set_subscriptions (delete topic (subscriptions s)) s) ;;;
  emit (EvClear topic).

(** Modelled from the spec: [spf.dom.dataset.get] is not among the sources;
    the spec gives [get(element, key)], the value stored for the element or
    absent. *)
Definition dataset_get (e : element) (key : string) : M (option string) :=
  gets (λ s, dataset s !! (e_ref e, key)).

(** Modelled from the spec: [spf.dom.dataset.set] is not among the sources;
    the spec gives [set(element, key, value)], per-element metadata that is
    independent of the visible attributes. *)
Definition dataset_set (e : element) (key value : string) : M unit :=
  modify (λ s, set_dataset (<[(e_ref e, key) := value]> (dataset s)) s) ;;;
  emit (EvMarker (e_ref e) key value).

(** Modelled from the spec: [spf.dom.createIframe] is not among the sources;
    the spec gives a factory that creates a hidden browsing context with its
    own document, given the id of the context.  The iframe element goes at
    the end of the body of the main document. *)
Definition createIframe (id : string) : M element := λ s,
  let r := next_ref s in
  let e := Element r "iframe" id "" "" "" "" "" in
  (Normal e,
   set_log (log s ++ [EvIframe r id])
     (set_frames (<[r := Doc (Some []) []]> (frames s))
        (set_document (Doc (d_head (document s)) (d_body (document s) ++ [e]))
           (set_next_ref (S r) s)))).

(** What the page and the engine provide, as parameters of the functions:
    [spf.string.hashCode], which is not among the sources and of which the
    spec only says that it is a deterministic hash of the URL, here a
    number; the flag [spf.dom.IS_IE]; whether the engine dispatches the
    load event of a URL synchronously when its element is inserted, as the
    source says IE 10 does for cached resources; and the selector engine:
    for a string, either nothing, when the string is not a selector and the
    engine raises a [SyntaxError], or the test that tells, in a document,
    which elements the selector selects. *)
Record host := Host {
  hashCode : string → N;
  IS_IE : bool;
  sync_onload : string → bool;
  selects : string → option (doc → element → bool)
}.

(** The elements that a test selects in a document, in document order. *)
Definition matching (p : doc → element → bool) (d : doc) : list element :=
  filter (λ e, p d e = true) (doc_elements d).

(** Modelled from the spec: [spf.dom.query] is not among the sources; the
    spec gives a search for the elements of a document by tag name and class
    tag.  The source hands it one selector string, [tag + '.' + cls], so
    what is found is what the selector engine of the host selects in the
    main document, as a snapshot in document order; a string that is not a
    selector raises a [SyntaxError]. *)
Definition query (env : host) (selector : string) : M (list element) := λ s,
  match selects env selector with
  | Some p => (Normal (matching p (document s)), s)
  | None => (SyntaxError, s)
  end.

(** The class names of an element: the pieces of [className] between
    white space. *)
Definition is_space (c : Ascii.ascii) : bool :=
  bool_decide (Ascii.N_of_ascii c ∈ [32; 9; 10; 12; 13]%N).

Fixpoint pieces (sep : Ascii.ascii → bool) (s cur : string) : list string :=
  match s with
  | EmptyString => [cur]
  | String c s' =>
      if sep c then cur :: pieces sep s' ""
      else pieces sep s' (cur +:+ String c "")
  end.

Definition class_tokens (className : string) : list string :=
  filter (λ t, t ≠ "") (pieces is_space className "").

(** The element has the tag and, among its classes, the class. *)
Definition bears (tag cls : string) (e : element) : Prop :=
  tagName e = tag ∧ cls ∈ class_tokens (className e).

(** The test of the selector [tag.c1.c2...]: the tag, and every class. *)
Definition class_match (tag : string) (classes : list string)
    (d : doc) (e : element) : bool :=
  bool_decide (tagName e = tag) &&
  forallb (λ c, bool_decide (c ∈ class_tokens (className e))) classes.

(** An identifier of plain letters, digits, [_] and [-], that starts with a
    letter or [_], or with [-] and then a letter or [_]. *)
Definition ident_start (c : Ascii.ascii) : bool :=
  let n := Ascii.N_of_ascii c in
  ((65 <=? n) && (n <=? 90) || (97 <=? n) && (n <=? 122) || (n =? 95))%N.

Definition ident_char (c : Ascii.ascii) : bool :=
  let n := Ascii.N_of_ascii c in
  (ident_start c || (48 <=? n) && (n <=? 57) || (n =? 45))%N.

Definition css_ident (s : string) : bool :=
  match String.list_ascii_of_string s with
  | [] => false
  | c :: r =>
      if (Ascii.N_of_ascii c =? 45)%N then
        match r with
        | [] => false
        | c' :: r' => ident_start c' && forallb ident_char r'
        end
      else ident_start c && forallb ident_char r
  end.

(** One selector engine to run the functions on concrete pages.  It knows
    the selectors of the form [tag.c1.c2...] over such identifiers, which
    select the elements with the tag and all the classes.  Every other
    string it treats as no selector; a real engine accepts more. *)
Definition sample_selects (selector : string)
  : option (doc → element → bool) :=
  match pieces (λ c, (Ascii.N_of_ascii c =? 46)%N) selector "" with
  | tag :: classes =>
      if css_ident tag && forallb css_ident classes
      then Some (class_match tag classes)
      else None
  | [] => None
  end.

(** One hash to run the functions on concrete pages: the 31-multiplier
    hash, kept in 32 bits. *)
Definition hash31 (str : string) : N :=
  foldl (λ result c, ((31 * result + Ascii.N_of_ascii c) mod 4294967296)%N) 0%N
        (String.list_ascii_of_string str).

Definition sample_host : host :=
  Host hash31 false (λ _, false) sample_selects.

(** A host whose engine dispatches every load event during the insertion. *)
Definition ie10_host : host := Host hash31 true (λ _, true) sample_selects.

(** ** The functions of the source *)

Section resources.

Context (env : host).

(** [type + '-' + spf.string.hashCode(url)]. *)
Definition resource_id (type url : string) : string :=
  type +:+ "-" +:+ pretty (hashCode env url).

(** [type + '-prefetch']. *)
Definition iframe_id (type : string) : string := type +:+ "-prefetch".

(** [type != 'js' && type != 'css']. *)
Definition unsupported (type : string) : bool :=
  bool_decide (type ≠ "js") && bool_decide (type ≠ "css").

(** [(type == 'js') ? 'script' : 'link']. *)
Definition tag_of (type : string) : string :=
  if bool_decide (type = "js") then "script" else "link".

(** The body of the [el.onload] handler that [load_] installs:
    [if (fn) { setTimeout(fn, 0); }].  An element without the handler does
    nothing. *)
Definition el_onload (r : nat) : M unit :=
  do h <- gets (λ s, onload s !! r) ;
  match h with
  | Some (Some fn) => setTimeout (THook fn)
  | _ => ret tt
  end.

(** The body of the [el.onreadystatechange] handler: the states ['loaded']
    and ['complete'] call [el.onload()]. *)
Definition el_onreadystatechange (r : nat) (readyState : string) : M unit :=
  if bool_decide (readyState = "loaded") || bool_decide (readyState = "complete")
  then el_onload r
  else ret tt.

(** [spf.net.resources.load_].  The closure [fn] of the source reads the
    variable [el] of its creator, which holds the element that [load_]
    returns by the time a timer can run; so [fn] is given here as a function
    of that element.  The attributes are computed first and the effects
    follow in the order of the source: creation, handlers, locator,
    insertion.  The last step is the engine's: a synchronous dispatch of the
    load event on insertion, for the URLs the host says so. *)
Definition load_ (type url id cls : string) (fn : option (element → hook))
    (opt_document : option docref) : M (option element) :=
  if unsupported type then ret None else
  let tag := tag_of type in
  do el <- createElement tag ;
  let el := with_className cls (with_id id el) in
  let el := if bool_decide (type = "css") then with_rel "stylesheet" el
            else el in
  let el := if bool_decide (type = "js") then with_src url el
            else with_href url el in
  modify (λ s, set_onload (<[e_ref el := (λ f, f el) <$> fn]> (onload s)) s) ;;;
  emit (EvLocator (e_ref el)
          (if bool_decide (type = "js") then "src" else "href") url) ;;;
  let doc := default MainDoc opt_document in
  insert_target (bool_decide (type = "js")) el doc ;;;
  (if sync_onload env url then el_onload (e_ref el) else ret tt) ;;;
  ret (Some el).

(** [spf.net.resources.unload_]. *)
Fixpoint unload_ (els : list element) : M unit :=
  match els with
  | [] => ret tt
  | e :: rest =>
      clear (e_id e) ;;;
      removeChild_of_parent e ;;;
      unload_ rest
  end.

(** The closure of lines 75-85, the completion hook. *)
Definition completion (h : hook) : M unit :=
  do v <- dataset_get (h_el h) "loaded" ;
  if truthy v then ret tt else
    dataset_set (h_el h) "loaded" "true" ;;;
    unload_ (h_elsToRemove h) ;;;
    publish (h_id h) ;;;
    clear (h_id h).

(** [spf.net.resources.load]. *)
Definition load (type url : string) (opt_callback : option callback)
    (opt_name : option string) : M (option element) :=
  if unsupported type then ret None else
  let id := resource_id type url in
  let cls := default "" opt_name in
  do el <- getElementById MainDoc id ;
  do isLoaded <- match el with
                 | Some e => do v <- dataset_get e "loaded" ; ret (truthy v)
                 | None => ret false
                 end ;
  let isLoading := bool_decide (is_Some el) && negb isLoaded in
  if isLoaded then
    match opt_callback with
    | Some cb => call cb
    | None => ret tt
    end ;;;
    ret el
  else
    match opt_callback with
    | Some cb => subscribe id cb
    | None => ret tt
    end ;;;
    if isLoading then ret el else
    let tag := tag_of type in
    do elsToRemove <- (if bool_decide (cls = "") then ret []
                       else query env (tag +:+ "." +:+ cls)) ;
    load_ type url id cls (Some (λ el, Hook el id elsToRemove)) None.

(** [spf.net.resources.unload]. *)
Definition unload (type url : string) : M unit :=
  if unsupported type then ret tt else
  let id := resource_id type url in
  do el <- getElementById MainDoc id ;
  match el with
  | Some e => unload_ [e]
  | None => ret tt
  end.

(** [spf.net.resources.ignore]. *)
Definition ignore (type url : string) : M unit :=
  if unsupported type then ret tt else
  let id := resource_id type url in
  clear id.

(** [spf.net.resources.prefetch]. *)
Definition prefetch (type url : string) : M unit :=
  if unsupported type then ret tt else
  let id := resource_id type url in
  do el <- getElementById MainDoc id ;
  match el with
  | Some _ => ret tt
  | None =>
      let iframeId := iframe_id type in
      do iframeEl <- getElementById MainDoc iframeId ;
      match iframeEl with
      | None =>
          do iframeEl <- createIframe iframeId ;
          setTimeout (TPrefetch type url id iframeEl)
      | Some iframeEl =>
          do el <- getElementById (FrameDoc (e_ref iframeEl)) id ;
          match el with
          | Some _ => ret tt
          | None => setTimeout (TPrefetch type url id iframeEl)
          end
      end
  end.

(** The function that [prefetch] hands to [setTimeout] (lines 239-260). *)
Definition prefetch_deferred (type url id : string) (iframeEl : element)
  : M unit :=
  let iframeDoc := FrameDoc (e_ref iframeEl) in
  do d <- gets (lookup_doc iframeDoc) ;
  match d with
  | None => throw
  | Some _ =>
      if bool_decide (type = "js") then
        do objectEl <- createElement "object" ;
        let objectEl := with_id id objectEl in
        if IS_IE env then
          do scriptEl <- createElement "script" ;
          emit (EvLocator (e_ref scriptEl) "src" url) ;;;
          body_append objectEl iframeDoc
        else
          emit (EvLocator (e_ref objectEl) "data" url) ;;;
          body_append (with_data url objectEl) iframeDoc
      else
        load_ type url id "" None (Some iframeDoc) ;;;
        ret tt
  end.

(** ** The event loop *)

Definition run_task (t : task) : M unit :=
  match t with
  | THook h => completion h
  | TPrefetch type url id iframeEl => prefetch_deferred type url id iframeEl
  end.

(** The timer at position [k] of the queue fires. *)
Definition run_timer (k : nat) : M unit := λ s,
  match timers s !! k with
  | Some t => run_task t (set_timers (delete k (timers s)) s)
  | None => (Normal tt, s)
  end.

(** What can happen to the page: calls of the four public functions, the
    engine dispatching a load or a readiness event on a node, and a timer
    firing. *)
Inductive op :=
  | OpLoad (type url : string) (cb : option callback) (name : option string)
  | OpUnload (type url : string)
  | OpIgnore (type url : string)
  | OpPrefetch (type url : string)
  | OpOnload (r : nat)
  | OpReadyState (r : nat) (readyState : string)
  | OpTimer (k : nat).

Definition exec (o : op) : M unit :=
  match o with
  | OpLoad type url cb name => load type url cb name ;;; ret tt
  | OpUnload type url => unload type url
  | OpIgnore type url => ignore type url
  | OpPrefetch type url => prefetch type url
  | OpOnload r => el_onload r
  | OpReadyState r rs => el_onreadystatechange r rs
  | OpTimer k => run_timer k
  end.

(** An exception ends the function that raised it and the event loop goes
    on with the state it left. *)
Definition run (ops : list op) (s : state) : state :=
  foldl (λ s o, (exec o s).2) s ops.

End resources.

(** ** Notions used by the statements *)

(** The elements of the main document, in document order. *)
Definition main_elements (s : state) : list element :=
  doc_elements (document s).

(** How many elements of a list carry the id. *)
Definition count_id (id : string) (l : list element) : nat :=
  length (filter (λ e, e_id e = id) l).

(** The elements of a list that have the tag and, among their classes,
    the class. *)
Definition same_generation (tag cls : string) (l : list element)
  : list element :=
  filter (bears tag cls) l.

(** The nodes of the main document were allocated before. *)
Definition allocated (s : state) : Prop :=
  ∀ r, r ∈ refs (main_elements s) → r < next_ref s.

(** The main document holds every node once, and the nodes it holds were
    allocated before. *)
Definition wf (s : state) : Prop :=
  NoDup (refs (main_elements s)) ∧ allocated s.

(** The selector that [load] builds at line 73. *)
Definition selector (type : string) (opt_name : option string) : string :=
  tag_of type +:+ "." +:+ default "" opt_name.

(** Line 73 of [load] ends normally: there is no name, or the engine takes
    the selector. *)
Definition queryable (env : host) (type : string) (opt_name : option string)
  : bool :=
  bool_decide (default "" opt_name = "") ||
  match selects env (selector type opt_name) with
  | Some _ => true
  | None => false
  end.

(** The value of [elsToRemove] after line 73 of [load] in [s], when line 73
    ends normally. *)
Definition snapshot (env : host) (type : string) (opt_name : option string)
    (s : state) : list element :=
  if bool_decide (default "" opt_name = "") then []
  else match selects env (selector type opt_name) with
       | Some p => matching p (document s)
       | None => []
       end.

(** The state after lines 63-65 of [load]. *)
Definition subscribed (id : string) (opt_callback : option callback)
    (s : state) : state :=
  match opt_callback with
  | Some cb =>
      State (document s) (frames s) (next_ref s) (dataset s)
            (<[id := default [] (subscriptions s !! id) ++ [cb]]>
               (subscriptions s))
            (onload s) (timers s) (log s ++ [EvSubscribe id cb])
  | None => s
  end.

(** The state that [unload_] leaves when every removal succeeds on a node of
    the main document: for each element in turn, its topic is dropped, the
    node leaves the document, and the two steps are logged in that order. *)
Fixpoint unloaded (els : list element) (s : state) : state :=
  match els with
  | [] => s
  | e :: rest =>
      unloaded rest
        (State (doc_remove (e_ref e) (document s)) (frames s) (next_ref s)
               (dataset s) (delete (e_id e) (subscriptions s)) (onload s)
               (timers s)
               (log s ++ [EvClear (e_id e); EvRemove (e_ref e)]))
  end.

(** The state in which the hook starts its removals. *)
Definition marked (e : element) (s : state) : state :=
  set_log (log s ++ [EvMarker (e_ref e) "loaded" "true"])
    (set_dataset (<[(e_ref e, "loaded") := "true"]> (dataset s)) s).

(** The element that [load_] builds on the node [r]. *)
Definition new_element (r : nat) (type url id cls : string) : element :=
  Element r (tag_of type) id cls
          (if bool_decide (type = "css") then "stylesheet" else "")
          (if bool_decide (type = "js") then url else "")
          (if bool_decide (type = "js") then "" else url)
          "".

(** The state that [load_] leaves for an accepted type, when the target
    document [d] is [x]: the node is allocated, its handlers hold the
    closure, the element is in the target, and a timer is queued only when
    the engine dispatched the load event during the insertion. *)
Definition after_load_ (env : host) (type url id cls : string)
    (fn : option (element → hook)) (d : docref) (x : doc) (s : state)
  : state :=
  let r := next_ref s in
  let el := new_element r type url id cls in
  let s1 := store_doc d (target_insert (bool_decide (type = "js")) el x) s in
  State (document s1) (frames s1) (S r) (dataset s) (subscriptions s)
        (<[r := (λ f, f el) <$> fn]> (onload s))
        (timers s ++
           match fn with
           | Some f => if sync_onload env url then [THook (f el)] else []
           | None => []
           end)
        (log s ++ [EvCreate r (tag_of type);
                   EvLocator r (if bool_decide (type = "js") then "src"
                                else "href") url;
                   EvInsert d r]).

(** A computation keeps a relation between the state it starts in and the
    state it leaves, however it ends. *)
Definition preserves {A} (R : relation state) (m : M A) : Prop :=
  ∀ s o s', m s = (o, s') → R s s'.

(** The callback is subscribed to no topic. *)
Definition unsubscribed (cb : callback) (s : state) : Prop :=
  ∀ t, cb ∉ default [] (subscriptions s !! t).

(** From a state in which the callback is subscribed nowhere, the step
    leaves it subscribed nowhere and does not invoke it. *)
Definition spares (cb : callback) (s s' : state) : Prop :=
  unsubscribed cb s →
  unsubscribed cb s' ∧ ∃ l, log s' = log s ++ l ∧ EvCall cb ∉ l.

(** The operation is a [load] that passes the callback. *)
Definition passes (cb : callback) (o : op) : bool :=
  match o with
  | OpLoad _ _ (Some c) _ => bool_decide (c = cb)
  | _ => false
  end.

(** The state that the completion hook leaves when it finds no marker and
    every removal succeeds: marker, removals, publication, clearing. *)
Definition completed (h : hook) (s : state) : state :=
  let s1 := unloaded (h_elsToRemove h) (marked (h_el h) s) in
  State (document s1) (frames s1) (next_ref s1) (dataset s1)
        (delete (h_id h) (subscriptions s1)) (onload s1) (timers s1)
        (log s1 ++ EvPublish (h_id h)
           :: (EvCall <$> default [] (subscriptions s1 !! h_id h))
           ++ [EvClear (h_id h)]).

(** The step keeps the main document well formed. *)
Definition keeps_wf (s s' : state) : Prop := wf s → wf s'.

(** The step does not add an element with the id to the main document. *)
Definition no_more (id : string) (s s' : state) : Prop :=
  count_id id (main_elements s') ≤ count_id id (main_elements s).

(** Events that create a node, point it at a URL or change a document. *)
Definition is_dom_event (e : event) : bool :=
  match e with
  | EvCreate _ _ | EvLocator _ _ _ | EvInsert _ _ | EvRemove _
  | EvIframe _ _ => true
  | _ => false
  end.

(** The state that [prefetch] leaves when it has to create the browsing
    context of the type: the iframe is at the end of the body, it has an
    empty document of its own, and the fetch is queued. *)
Definition with_context (type url id : string) (s : state) : state :=
  let r := next_ref s in
  let iframeEl := Element r "iframe" (iframe_id type) "" "" "" "" "" in
  State (Doc (d_head (document s)) (d_body (document s) ++ [iframeEl]))
        (<[r := Doc (Some []) []]> (frames s)) (S r) (dataset s)
        (subscriptions s) (onload s)
        (timers s ++ [TPrefetch type url id iframeEl])
        (log s ++ [EvIframe r (iframe_id type)]).

(** The iframes of the main document. *)
Definition contexts (s : state) : list element :=
  filter (λ e, tagName e = "iframe") (main_elements s).

(** The part of the log written after [s] by a computation that ended in
    [s']. *)
Definition log_since (s s' : state) : list event :=
  drop (length (log s)) (log s').

Definition is_call (e : event) : bool :=
  match e with
  | EvCall _ => true
  | _ => false
  end.

(** ** Scenarios *)

(** Two generations of the script named [main] are requested one after
    the other, and the first one completes while the second is loading. *)
Definition two_generations : state :=
  run sample_host
    [OpLoad "js" "a.js" None (Some "main");
     OpLoad "js" "b.js" None (Some "main");
     OpOnload 0; OpTimer 0]
    init.

(** A script and a style are prefetched. *)
Definition two_prefetches : state :=
  run sample_host [OpPrefetch "js" "a.js"; OpPrefetch "css" "b.css"] init.

(** The style [a.css] named [main] is loaded; [b.css] is requested under
    the same name with the callback [7]; [a.css] is unloaded by hand; then
    the engine reports the load of [b.css], which queues its hook. *)
Definition stale_detached : state :=
  run sample_host
    [OpLoad "css" "a.css" None (Some "main"); OpOnload 0; OpTimer 0;
     OpLoad "css" "b.css" (Some 7) (Some "main");
     OpUnload "css" "a.css";
     OpOnload 1]
    init.

(** The page after [a.js] named [main] has been loaded, with the callback
    [5] of a later load of [b.js] still pending. *)
Definition one_loaded : state :=
  run sample_host
    [OpLoad "js" "a.js" (Some 1) (Some "main"); OpOnload 0; OpTimer 0;
     OpLoad "js" "b.js" (Some 5) None]
    init.

(** The element of [a.js] in [one_loaded]. *)
Definition a_js : element :=
  new_element 0 "js" "a.js" (resource_id sample_host "js" "a.js") "main".

(** The steps of [unload_] on a list of elements: for each one the topic,
    then the node. *)
Definition removal_steps (els : list element) : list event :=
  els ≫= λ e, [EvClear (e_id e); EvRemove (e_ref e)].

(** The children of the element that [load_] inserts into: the head when
    the document has one, the body otherwise. *)
Definition target_children (d : doc) : list element :=
  default (d_body d) (d_head d).

(** The operation is a call of [load]. *)
Definition is_load (o : op) : bool :=
  match o with
  | OpLoad _ _ _ _ => true
  | _ => false
  end.

(** A truthy value of the dataset stays as it is. *)
Definition keeps_markers (s s' : state) : Prop :=
  ∀ k, truthy (dataset s !! k) = true → dataset s' !! k = dataset s !! k.

(** A page on which the script at the URL [Aa] is loading; the URL [BB] has
    the same hash. *)
Definition collision_page : state :=
  run sample_host [OpLoad "js" "Aa" None None] init.

(** A page of which an element that is not an iframe carries the key of the
    script context. *)
Definition foreign_key_page : state :=
  State (Doc (Some []) [Element 0 "div" "js-prefetch" "" "" "" "" ""])
        ∅ 1 ∅ ∅ ∅ [] [].

(** [one_loaded] after a second generation of [main], [c.js] with the
    callback [3], has been requested. *)
Definition swap_pending : state :=
  run sample_host [OpLoad "js" "c.js" (Some 3) (Some "main")] one_loaded.

(** The element of [c.js] in [swap_pending], and its completion hook. *)
Definition c_js : element :=
  new_element 2 "js" "c.js" (resource_id sample_host "js" "c.js") "main".
Definition c_hook : hook :=
  Hook c_js (resource_id sample_host "js" "c.js") [a_js].

(** The element of the URL [Aa] on [collision_page], the element that
    carries the key on [foreign_key_page], and the element of [b.js] on
    [one_loaded]. *)
Definition aa_js : element :=
  new_element 0 "js" "Aa" (resource_id sample_host "js" "Aa") "".
Definition foreign_div : element :=
  Element 0 "div" "js-prefetch" "" "" "" "" "".
Definition b_js : element :=
  new_element 1 "js" "b.js" (resource_id sample_host "js" "b.js") "".

(** The element of [a.css] that has left the document in
    [stale_detached]. *)
Definition a_css : element :=
  new_element 0 "css" "a.css" (resource_id sample_host "css" "a.css") "main".

(** ** Equations of the primitives *)

Section facts.

Context (env : host).

Lemma unsupported_js : unsupported "js" = false.
Proof. reflexivity. Qed.

Lemma unsupported_css : unsupported "css" = false.
Proof. reflexivity. Qed.

Lemma unsupported_false type :
  unsupported type = false ↔ type = "js" ∨ type = "css".
Proof.
  unfold unsupported. split.
  - intros H. apply andb_false_iff in H as [H|H];
      apply bool_decide_eq_false, dec_stable in H; auto.
  - intros [->| ->]; reflexivity.
Qed.

Lemma unsupported_true type :
  type ≠ "js" → type ≠ "css" → unsupported type = true.
Proof.
  intros H1 H2. unfold unsupported.
  by rewrite !bool_decide_eq_true_2.
Qed.

Lemma clear_eq topic s :
  clear topic s =
  (Normal tt,
   set_log (log s ++ [EvClear topic])
     (set_subscriptions (delete topic (subscriptions s)) s)).
Proof. reflexivity. Qed.

Lemma call_all_eq fns s :
  call_all fns s = (Normal tt, set_log (log s ++ (EvCall <$> fns)) s).
Proof.
  revert s. induction fns as [|fn fns IH]; intros s.
  - destruct s. simpl. unfold ret, set_log. simpl. by rewrite app_nil_r.
  - simpl. unfold bind, call, emit, modify. rewrite IH.
    destruct s. unfold set_log. simpl. by rewrite <- app_assoc.
Qed.

Lemma publish_eq topic s :
  publish topic s =
  (Normal tt,
   set_subscriptions (delete topic (subscriptions s))
     (set_log (log s ++ EvPublish topic
                 :: (EvCall <$> default [] (subscriptions s !! topic))) s)).
Proof.
  unfold publish, bind, emit, modify, gets. rewrite call_all_eq.
  destruct s. unfold set_log, set_subscriptions. simpl.
  by rewrite <- app_assoc.
Qed.

(** ** Relations kept by computations *)

Section preserves.

Context (R : relation state) `{!PreOrder R}.

Lemma preserves_ret {A} (a : A) : preserves R (ret a).
Proof. intros s o s' H. by inversion H. Qed.

Lemma preserves_throw {A} : preserves R (@throw A).
Proof. intros s o s' H. by inversion H. Qed.

Lemma preserves_gets {A} (f : state → A) : preserves R (gets f).
Proof. intros s o s' H. by inversion H. Qed.

Lemma preserves_modify f : (∀ s, R s (f s)) → preserves R (modify f).
Proof. intros Hf s o s' H. inversion H. apply Hf. Qed.

Lemma preserves_bind {A B} (m : M A) (k : A → M B) :
  preserves R m → (∀ a, preserves R (k a)) → preserves R (bind m k).
Proof.
  intros Hm Hk s o s' H. unfold bind in H.
  destruct (m s) as [[a|] s1] eqn:Hms.
  - trans s1; [by eapply Hm | by eapply Hk].
  - inversion H; subst. by eapply Hm.
Qed.

Lemma preserves_getElementById d id : preserves R (getElementById d id).
Proof.
  intros s o s' H. unfold getElementById in H.
  destruct (lookup_doc d s); by inversion H.
Qed.

Lemma preserves_query sel : preserves R (query env sel).
Proof.
  intros s o s' H. unfold query in H.
  destruct (selects env sel); by inversion H.
Qed.

End preserves.

(** ** Facts about the document *)

Lemma find_id_Some id l e :
  find_id id l = Some e → e ∈ l ∧ e_id e = id.
Proof.
  unfold find_id. intros H.
  apply head_Some in H as [l' H].
  assert (e ∈ filter (λ e, e_id e = id) l) as Hin
    by (rewrite H; apply list_elem_of_here).
  by apply list_elem_of_filter in Hin as [? ?].
Qed.

Lemma find_id_None id l :
  find_id id l = None ↔ count_id id l = 0.
Proof.
  unfold find_id, count_id.
  destruct (filter _ l); simpl; split; intros; congruence || lia.
Qed.

Lemma find_id_None_elem id l e :
  find_id id l = None → e ∈ l → e_id e ≠ id.
Proof.
  unfold find_id. intros H Hin Hid.
  assert (e ∈ filter (λ e, e_id e = id) l) as Hf
    by (by apply list_elem_of_filter).
  destruct (filter _ l); [by apply not_elem_of_nil in Hf | discriminate].
Qed.

Lemma doc_elements_remove r d :
  doc_elements (doc_remove r d) = remove_ref r (doc_elements d).
Proof.
  unfold doc_elements, doc_remove, remove_ref. simpl.
  rewrite filter_app. by destruct (d_head d).
Qed.

Lemma doc_elements_insert front e d :
  doc_elements (target_insert front e d) ≡ₚ e :: doc_elements d.
Proof.
  unfold doc_elements, target_insert.
  destruct (d_head d) as [h|], front; simpl; try done.
  - rewrite <- app_assoc. simpl. by rewrite <- Permutation_middle.
  - by rewrite <- Permutation_cons_append.
Qed.

Lemma elem_of_refs r (l : list element) :
  r ∈ refs l ↔ ∃ e, e ∈ l ∧ e_ref e = r.
Proof.
  unfold refs. rewrite list_elem_of_fmap.
  split; [intros (e & -> & ?) | intros (e & ? & <-)]; eauto.
Qed.

Lemma remove_ref_keeps r l e :
  e ∈ l → e_ref e ≠ r → e ∈ remove_ref r l.
Proof. intros. by apply list_elem_of_filter. Qed.

Lemma remove_ref_drops r l : r ∉ refs (remove_ref r l).
Proof.
  rewrite elem_of_refs. intros (e & Hin & Hr).
  by apply list_elem_of_filter in Hin as [? _].
Qed.

(** [removeChild] on a node of the main document. *)
Lemma removeChild_attached e s :
  e_ref e ∈ refs (main_elements s) →
  removeChild_of_parent e s =
  (Normal tt,
   set_log (log s ++ [EvRemove (e_ref e)])
     (set_document (doc_remove (e_ref e) (document s)) s)).
Proof.
  intros Hin. unfold removeChild_of_parent, parentNode.
  unfold main_elements in Hin. by rewrite bool_decide_eq_true_2.
Qed.

(** [removeChild] on a node that is in no document. *)
Lemma removeChild_detached e s :
  e_ref e ∉ refs (main_elements s) →
  (∀ f d, frames s !! f = Some d → e_ref e ∉ refs (doc_elements d)) →
  removeChild_of_parent e s = (TypeError, s).
Proof.
  intros Hmain Hfr. unfold removeChild_of_parent, parentNode.
  unfold main_elements in Hmain. rewrite bool_decide_eq_false_2 by done.
  destruct (head _) as [[f d]|] eqn:Hh; [|done].
  apply head_Some in Hh as [l' Hh].
  assert ((f, d) ∈ filter (λ p : nat * doc, e_ref e ∈ refs (doc_elements p.2))
            (map_to_list (frames s))) as Hin
    by (rewrite Hh; apply list_elem_of_here).
  apply list_elem_of_filter in Hin as [Hp Hin].
  apply elem_of_map_to_list in Hin. by destruct (Hfr f d Hin).
Qed.

Lemma count_id_sublist id l1 l2 :
  l1 `sublist_of` l2 → count_id id l1 ≤ count_id id l2.
Proof.
  unfold count_id. induction 1 as [|x l1 l2 _ IH|x l1 l2 _ IH]; [done|..];
    rewrite !filter_cons; destruct (decide (e_id x = id)); simpl; lia.
Qed.

Lemma doc_remove_sublist r d :
  doc_elements (doc_remove r d) `sublist_of` doc_elements d.
Proof. rewrite doc_elements_remove. apply sublist_filter. Qed.

(** What a removal can change, whether it ends normally or not: the main
    document only loses nodes, and only the node asked for; subscriptions,
    markers, handlers, timers and the allocator stay; the log gets no
    callback invocation. *)
Lemma removeChild_effect e s o s' :
  removeChild_of_parent e s = (o, s') →
  next_ref s' = next_ref s ∧ dataset s' = dataset s ∧
  onload s' = onload s ∧ timers s' = timers s ∧
  subscriptions s' = subscriptions s ∧
  main_elements s' `sublist_of` main_elements s ∧
  (∀ x, x ∈ main_elements s → e_ref x ≠ e_ref e → x ∈ main_elements s') ∧
  ∃ l, log s' = log s ++ l ∧ Forall (λ ev, is_call ev = false) l.
Proof.
  unfold removeChild_of_parent. intros H.
  destruct (parentNode e s) as [[|f]|] eqn:Hp; simpl in H.
  - inversion H; subst; clear H. simpl. unfold main_elements. simpl.
    repeat split; try done.
    + apply doc_remove_sublist.
    + intros x Hx Hne. rewrite doc_elements_remove.
      by apply remove_ref_keeps.
    + exists [EvRemove (e_ref e)]. split; [done|]. by repeat constructor.
  - destruct (frames s !! f) as [d|]; inversion H; subst; clear H; simpl.
    + repeat split; try done.
      exists [EvRemove (e_ref e)]. split; [done|]. by repeat constructor.
    + repeat split; try done.
      exists []. split; [by rewrite app_nil_r|]. constructor.
  - inversion H; subst; clear H.
    repeat split; try done.
    exists []. split; [by rewrite app_nil_r|]. constructor.
Qed.

Lemma unload__effect els s o s' :
  unload_ els s = (o, s') →
  next_ref s' = next_ref s ∧ dataset s' = dataset s ∧
  onload s' = onload s ∧ timers s' = timers s ∧
  (∀ t, subscriptions s !! t = None → subscriptions s' !! t = None) ∧
  (∀ t, t ∉ e_id <$> els → subscriptions s' !! t = subscriptions s !! t) ∧
  main_elements s' `sublist_of` main_elements s ∧
  (∀ x, x ∈ main_elements s → e_ref x ∉ refs els → x ∈ main_elements s') ∧
  ∃ l, log s' = log s ++ l ∧ Forall (λ ev, is_call ev = false) l.
Proof.
  revert s. induction els as [|e els IH]; intros s H; simpl in H.
  - inversion H; subst; clear H. repeat split; try done.
    exists []. split; [by rewrite app_nil_r|]. constructor.
  - unfold bind at 1 in H. rewrite clear_eq in H.
    unfold bind at 1 in H.
    destruct (removeChild_of_parent e _) as [[[]|] s1] eqn:Hr;
      apply removeChild_effect in Hr
        as (Hn & Hd & Ho & Ht & Hs & Hsub & Hkeep & l1 & Hl1 & Hq1);
      simpl in Hn, Hd, Ho, Ht, Hs, Hsub, Hkeep, Hl1.
    + apply IH in H
        as (Hn' & Hd' & Ho' & Ht' & Hs' & Hs2' & Hsub' & Hkeep' & l2 & Hl2 & Hq2).
      repeat split; try congruence.
      * intros t Hnone. apply Hs'. rewrite Hs.
        apply lookup_delete_None. by right.
      * intros t Hni. rewrite fmap_cons in Hni.
        apply not_elem_of_cons in Hni as [Hne Hni].
        rewrite Hs2' by done. rewrite Hs. by rewrite lookup_delete_ne.
      * by etrans.
      * intros x Hx Hni. unfold refs in Hni. rewrite fmap_cons in Hni.
        apply not_elem_of_cons in Hni as [Hne Hni].
        apply Hkeep'; [|done]. by apply Hkeep.
      * exists ((EvClear (e_id e) :: l1) ++ l2). split.
        { rewrite Hl2, Hl1. by rewrite <- !app_assoc. }
        apply Forall_app. split; [by constructor | done].
    + inversion H; subst; clear H.
      repeat split; try congruence.
      * intros t Hnone. rewrite Hs. apply lookup_delete_None. by right.
      * intros t Hni. rewrite fmap_cons in Hni.
        apply not_elem_of_cons in Hni as [Hne Hni].
        rewrite Hs. by rewrite lookup_delete_ne.
      * exact Hsub.
      * intros x Hx Hni. unfold refs in Hni. rewrite fmap_cons in Hni.
        apply not_elem_of_cons in Hni as [Hne Hni]. by apply Hkeep.
      * exists (EvClear (e_id e) :: l1). split.
        { rewrite Hl1. by rewrite <- !app_assoc. }
        by constructor.
Qed.

(** ** Rejected types *)

(** C5. For a type that is neither ['js'] nor ['css'], [load] returns
    [null] and leaves the whole state as it was (no element, no
    subscription, no callback invoked, nothing logged), [load_] does the
    same, and [unload], [ignore] and [prefetch] return normally with the
    state untouched; none of them raises an exception. *)
Theorem unsupported_type_is_noop type url cb name id cls fn d s :
  type ≠ "js" → type ≠ "css" →
  load env type url cb name s = (Normal None, s) ∧
  load_ env type url id cls fn d s = (Normal None, s) ∧
  unload env type url s = (Normal tt, s) ∧
  ignore env type url s = (Normal tt, s) ∧
  prefetch env type url s = (Normal tt, s).
Proof.
  intros Hjs Hcss.
  pose proof (unsupported_true type Hjs Hcss) as Hu.
  unfold load, load_, unload, ignore, prefetch.
  rewrite Hu. repeat split; reflexivity.
Qed.

(** ** Unloading *)

Lemma unload__attached els s :
  NoDup (refs els) →
  (∀ r, r ∈ refs els → r ∈ refs (main_elements s)) →
  unload_ els s = (Normal tt, unloaded els s).
Proof.
  revert s. induction els as [|e els IH]; intros s Hnd Hin; [done|].
  unfold refs in Hnd. rewrite fmap_cons in Hnd.
  apply NoDup_cons in Hnd as [Hne Hnd].
  simpl. unfold bind at 1. rewrite clear_eq. unfold bind at 1.
  rewrite removeChild_attached
    by (apply Hin; unfold refs; rewrite fmap_cons; apply list_elem_of_here).
  simpl.
  rewrite IH; [| done |].
  - f_equal. f_equal. unfold set_log, set_document, set_subscriptions. simpl.
    by rewrite <- app_assoc.
  - intros r Hr. unfold main_elements. simpl.
    rewrite doc_elements_remove.
    assert (r ∈ refs (main_elements s)) as Hm
      by (apply Hin; unfold refs; rewrite fmap_cons; by apply list_elem_of_further).
    apply elem_of_refs in Hm as (x & Hx & <-).
    apply elem_of_refs. exists x. split; [|done].
    apply remove_ref_keeps; [done|]. intros Heq. apply Hne.
    by rewrite <- Heq.
Qed.


(** ** Completion *)

(** A hook that finds the marker set does nothing. *)
Lemma completion_again h v s :
  dataset s !! (e_ref (h_el h), "loaded") = Some v → v ≠ "" →
  completion h s = (Normal tt, s).
Proof.
  intros Hm Hv. unfold completion, bind at 1, dataset_get, gets.
  rewrite Hm. simpl. by rewrite bool_decide_eq_false_2.
Qed.

(** The hook always sets the marker when it finds none, whatever happens
    next; it invokes no callback of a topic that has no subscriber; and it
    removes nothing but its snapshot. *)
Lemma completion_effect h s o s' :
  truthy (dataset s !! (e_ref (h_el h), "loaded")) = false →
  completion h s = (o, s') →
  dataset s' = <[(e_ref (h_el h), "loaded") := "true"]> (dataset s) ∧
  next_ref s' = next_ref s ∧ onload s' = onload s ∧ timers s' = timers s ∧
  main_elements s' `sublist_of` main_elements s ∧
  (∀ x, x ∈ main_elements s → e_ref x ∉ refs (h_elsToRemove h) →
        x ∈ main_elements s') ∧
  (subscriptions s !! h_id h = None →
   ∃ l, log s' = log s ++ l ∧ Forall (λ ev, is_call ev = false) l).
Proof.
  intros Hm. unfold completion, bind at 1, dataset_get, gets. rewrite Hm.
  unfold bind at 1.
  change (dataset_set (h_el h) "loaded" "true" s)
    with (Normal tt, marked (h_el h) s).
  unfold bind at 1.
  destruct (unload_ _ _) as [[[]|] s1] eqn:Hu;
    apply unload__effect in Hu
      as (Hn & Hd & Ho & Ht & Hs & _ & Hsub & Hkeep & l1 & Hl1 & Hq1);
    simpl in *.
  - unfold bind at 1. rewrite publish_eq. rewrite clear_eq.
    intros H; inversion H; subst; clear H. simpl.
    repeat split; try done.
    intros Hnone. rewrite (Hs _ Hnone). simpl. rewrite Hl1.
    eexists. split.
    { rewrite <- !app_assoc. reflexivity. }
    repeat (apply Forall_app; split); try done; by repeat constructor.
  - intros H; inversion H; subst; clear H.
    repeat split; try done.
    intros _. rewrite Hl1. eexists. split.
    { rewrite <- !app_assoc. reflexivity. }
    apply Forall_app; split; [by repeat constructor | done].
Qed.

End facts.

(** ** The Loader and the handlers it installs *)

Section loader.

Context (env : host).

Lemma load__eq type url id cls fn d x s :
  type = "js" ∨ type = "css" →
  lookup_doc (default MainDoc d) s = Some x →
  load_ env type url id cls fn d s =
  (Normal (Some (new_element (next_ref s) type url id cls)),
   after_load_ env type url id cls fn (default MainDoc d) x s).
Proof.
  intros Hty Hx. unfold load_, after_load_.
  rewrite (proj2 (unsupported_false type) Hty).
  revert Hx. generalize (default MainDoc d). intros dd Hx.
  unfold bind at 1, createElement. unfold bind at 1, modify.
  unfold bind at 1, emit, modify. unfold bind at 1, insert_target.
  destruct Hty as [-> | ->], dd as [|i]; simpl in *;
    try (injection Hx as <-); rewrite ?Hx;
    unfold bind at 1;
    destruct fn as [f|]; simpl; unfold el_onload;
    destruct (sync_onload env url); simpl;
    unfold bind, gets, ret, setTimeout, modify; simpl;
    rewrite ?lookup_insert_eq; simpl; rewrite ?app_nil_r;
    try rewrite <- !app_assoc; reflexivity.
Qed.

(** The handler [el.onload] never runs the closure: it queues it. *)
Lemma el_onload_queues r h s :
  onload s !! r = Some (Some h) →
  el_onload r s = (Normal tt, set_timers (timers s ++ [THook h]) s).
Proof. intros H. unfold el_onload, bind, gets. by rewrite H. Qed.

End loader.

(** ** The three cases of [load] *)

Section load_cases.

Context (env : host).

Lemma load_loaded_eq type url cb name el v s :
  type = "js" ∨ type = "css" →
  find_id (resource_id env type url) (main_elements s) = Some el →
  dataset s !! (e_ref el, "loaded") = Some v →
  v ≠ "" →
  load env type url cb name s =
  (Normal (Some el),
   match cb with
   | Some c => set_log (log s ++ [EvCall c]) s
   | None => s
   end).
Proof.
  intros Hty Hfind Hmark Hv.
  apply unsupported_false in Hty.
  unfold load. rewrite Hty.
  unfold bind at 1. unfold getElementById. simpl.
  unfold main_elements in Hfind. rewrite Hfind.
  unfold bind at 1. unfold bind at 1. unfold dataset_get, gets.
  rewrite Hmark. unfold ret at 1. simpl.
  rewrite bool_decide_eq_false_2 by done. simpl.
  destruct cb; reflexivity.
Qed.

Lemma load_loading_eq type url cb name el s :
  type = "js" ∨ type = "css" →
  find_id (resource_id env type url) (main_elements s) = Some el →
  truthy (dataset s !! (e_ref el, "loaded")) = false →
  load env type url cb name s =
  (Normal (Some el), subscribed (resource_id env type url) cb s).
Proof.
  intros Hty Hfind Hmark.
  apply unsupported_false in Hty.
  unfold load. rewrite Hty.
  unfold bind at 1. unfold getElementById. simpl.
  unfold main_elements in Hfind. rewrite Hfind.
  unfold bind at 1. unfold bind at 1. unfold dataset_get, gets.
  unfold ret at 1. rewrite Hmark. simpl.
  destruct cb; reflexivity.
Qed.

Lemma load_line_73 type name s :
  (if bool_decide (default "" name = "") then ret []
   else query env (tag_of type +:+ "." +:+ default "" name)) s =
  if queryable env type name then (Normal (snapshot env type name s), s)
  else (SyntaxError, s).
Proof.
  unfold queryable, snapshot, selector, query, ret.
  destruct (bool_decide _); [done|]. simpl.
  by destruct (selects env _).
Qed.

Lemma load_absent_eq type url cb name s :
  type = "js" ∨ type = "css" →
  find_id (resource_id env type url) (main_elements s) = None →
  queryable env type name = true →
  load env type url cb name s =
  (Normal (Some (new_element (next_ref s) type url
                   (resource_id env type url) (default "" name))),
   after_load_ env type url (resource_id env type url) (default "" name)
     (Some (λ el, Hook el (resource_id env type url)
                    (snapshot env type name s)))
     MainDoc (document s) (subscribed (resource_id env type url) cb s)).
Proof.
  intros Hty Hfind Hq.
  unfold load. rewrite (proj2 (unsupported_false type) Hty).
  unfold bind at 1. unfold getElementById. simpl.
  unfold main_elements in Hfind. rewrite Hfind.
  unfold bind at 1. unfold ret at 1. simpl.
  unfold bind at 1.
  assert ((match cb with
           | Some c => subscribe (resource_id env type url) c
           | None => ret tt
           end) s = (Normal tt, subscribed (resource_id env type url) cb s))
    as Hsub by (by destruct cb).
  rewrite Hsub. unfold bind at 1.
  rewrite (load_line_73 type name). rewrite Hq.
  assert (snapshot env type name (subscribed (resource_id env type url) cb s)
          = snapshot env type name s) as ->
    by (unfold snapshot; by destruct cb).
  rewrite (load__eq env type url _ _ _ None (document s));
    [|done|by destruct cb].
  by destruct cb.
Qed.

(** With a name that the engine does not take as part of a selector, a
    [load] that has to create its element raises at line 73, after the
    subscription and before the Loader. *)
Lemma load_absent_raises type url cb name s :
  type = "js" ∨ type = "css" →
  find_id (resource_id env type url) (main_elements s) = None →
  queryable env type name = false →
  load env type url cb name s =
  (SyntaxError, subscribed (resource_id env type url) cb s).
Proof.
  intros Hty Hfind Hq.
  unfold load. rewrite (proj2 (unsupported_false type) Hty).
  unfold bind at 1. unfold getElementById. simpl.
  unfold main_elements in Hfind. rewrite Hfind.
  unfold bind at 1. unfold ret at 1. simpl.
  unfold bind at 1.
  assert ((match cb with
           | Some c => subscribe (resource_id env type url) c
           | None => ret tt
           end) s = (Normal tt, subscribed (resource_id env type url) cb s))
    as Hsub by (by destruct cb).
  rewrite Hsub. unfold bind at 1.
  rewrite (load_line_73 type name). by rewrite Hq.
Qed.

(** C4. When the element of (type, url) is in the document and its
    [loaded] marker is truthy (the code stores ['true']), [load] invokes the
    callback once, at once, when one is given, returns that element, and
    changes nothing else: the resulting state is the initial one with the
    single invocation appended to the log, so there is no DOM mutation, no
    subscription and no timer. *)
Theorem load_when_loaded type url cb name el v s :
  type = "js" ∨ type = "css" →
  find_id (resource_id env type url) (main_elements s) = Some el →
  dataset s !! (e_ref el, "loaded") = Some v →
  v ≠ "" →
  load env type url cb name s =
  (Normal (Some el),
   match cb with
   | Some c => set_log (log s ++ [EvCall c]) s
   | None => s
   end).
Proof. apply load_loaded_eq. Qed.

End load_cases.

(** ** A callback that is subscribed nowhere is not invoked *)

Create HintDb pres.

Ltac pres :=
  repeat first
    [ match goal with |- PreOrder _ => apply _ end
    | apply preserves_ret | apply preserves_throw | apply preserves_gets
    | apply preserves_getElementById
    | apply preserves_query
    | progress auto with pres
    | apply preserves_bind; [| |intros ?]
    | case_match ].

Section spares.

Context (env : host) (cb : callback).

Global Instance spares_preorder : PreOrder (spares cb).
Proof.
  split.
  - intros s Hs. split; [done|]. exists []. split; [by rewrite app_nil_r|].
    apply not_elem_of_nil.
  - intros s1 s2 s3 H12 H23 Hs.
    destruct (H12 Hs) as (Hs2 & l1 & Hl1 & Hn1).
    destruct (H23 Hs2) as (Hs3 & l2 & Hl2 & Hn2).
    split; [done|]. exists (l1 ++ l2). split.
    + by rewrite Hl2, Hl1, app_assoc.
    + rewrite elem_of_app. tauto.
Qed.

Lemma spares_intro s s' l :
  (unsubscribed cb s → unsubscribed cb s') →
  log s' = log s ++ l → EvCall cb ∉ l → spares cb s s'.
Proof. intros Hs Hl Hn Hun. split; [auto|]. by exists l. Qed.

Lemma unsubscribed_delete t s s' :
  subscriptions s' = delete t (subscriptions s) →
  unsubscribed cb s → unsubscribed cb s'.
Proof.
  intros Heq Hun t'. rewrite Heq.
  destruct (decide (t = t')) as [->|Hne].
  - rewrite lookup_delete_eq. apply not_elem_of_nil.
  - rewrite lookup_delete_ne by done. apply Hun.
Qed.

Lemma unsubscribed_same s s' :
  subscriptions s' = subscriptions s →
  unsubscribed cb s → unsubscribed cb s'.
Proof. intros Heq Hun t'. rewrite Heq. apply Hun. Qed.

Lemma spares_same s s' :
  subscriptions s' = subscriptions s → log s' = log s → spares cb s s'.
Proof.
  intros Hs Hl. apply (spares_intro _ _ []).
  - by apply unsubscribed_same.
  - by rewrite app_nil_r.
  - apply not_elem_of_nil.
Qed.

Lemma spares_event s s' ev :
  subscriptions s' = subscriptions s → log s' = log s ++ [ev] →
  ev ≠ EvCall cb → spares cb s s'.
Proof.
  intros Hs Hl Hev. apply (spares_intro _ _ [ev]); [|done|].
  - by apply unsubscribed_same.
  - intros Hin%list_elem_of_singleton. by apply Hev.
Qed.

Lemma spares_emit ev : ev ≠ EvCall cb → preserves (spares cb) (emit ev).
Proof.
  intros Hev s o s' H. inversion H; subst. by eapply spares_event.
Qed.

Lemma spares_call c : c ≠ cb → preserves (spares cb) (call c).
Proof. intros Hc. apply spares_emit. congruence. Qed.

Lemma spares_subscribe t c : c ≠ cb → preserves (spares cb) (subscribe t c).
Proof.
  intros Hc s o s' H. inversion H; subst; clear H.
  apply (spares_intro _ _ [EvSubscribe t c]); [|done|].
  - intros Hun t'. simpl.
    destruct (decide (t = t')) as [->|Hne].
    + rewrite lookup_insert_eq. simpl. rewrite elem_of_app.
      intros [Hin| ->%list_elem_of_singleton]; [by apply (Hun t')|done].
    + rewrite lookup_insert_ne by done. apply Hun.
  - by intros ?%list_elem_of_singleton.
Qed.

Lemma spares_clear t : preserves (spares cb) (clear t).
Proof.
  intros s o s' H. rewrite clear_eq in H. inversion H; subst; clear H.
  apply (spares_intro _ _ [EvClear t]); [|done|].
  - by apply unsubscribed_delete with t.
  - by intros ?%list_elem_of_singleton.
Qed.

Lemma spares_publish t : preserves (spares cb) (publish t).
Proof.
  intros s o s' H. rewrite publish_eq in H. inversion H; subst; clear H.
  intros Hun. split.
  - by apply (unsubscribed_delete t s).
  - eexists. split; [reflexivity|].
    rewrite not_elem_of_cons. split; [done|].
    rewrite list_elem_of_fmap. intros (c & Heq & Hc).
    injection Heq as <-. by apply (Hun t).
Qed.

Lemma spares_dataset_set e k v : preserves (spares cb) (dataset_set e k v).
Proof. intros s o s' H. inversion H; subst. by eapply spares_event. Qed.

Lemma spares_setTimeout t : preserves (spares cb) (setTimeout t).
Proof. intros s o s' H. inversion H; subst. by apply spares_same. Qed.

Lemma spares_createElement tag : preserves (spares cb) (createElement tag).
Proof. intros s o s' H. inversion H; subst. by eapply spares_event. Qed.

Lemma spares_createIframe id : preserves (spares cb) (createIframe id).
Proof. intros s o s' H. inversion H; subst. by eapply spares_event. Qed.

Lemma spares_modify_onload f :
  preserves (spares cb) (modify (λ s, set_onload (f s) s)).
Proof. intros s o s' H. inversion H; subst. by apply spares_same. Qed.

Lemma spares_insert_target front e d :
  preserves (spares cb) (insert_target front e d).
Proof.
  intros s o s' H. unfold insert_target in H.
  destruct (lookup_doc d s); inversion H; subst; [|reflexivity].
  destruct d; by eapply spares_event.
Qed.

Lemma spares_body_append e d : preserves (spares cb) (body_append e d).
Proof.
  intros s o s' H. unfold body_append in H.
  destruct (lookup_doc d s); inversion H; subst; [|reflexivity].
  destruct d; by eapply spares_event.
Qed.

Lemma spares_removeChild e : preserves (spares cb) (removeChild_of_parent e).
Proof.
  intros s o s' H. apply removeChild_effect in H
    as (_ & _ & _ & _ & Hs & _ & _ & l & Hl & Hq).
  apply (spares_intro _ _ l); [by apply unsubscribed_same|done|].
  intros Hin. eapply Forall_forall in Hq; [|done]. done.
Qed.

Hint Resolve spares_emit spares_call spares_subscribe spares_clear
  spares_publish spares_dataset_set spares_setTimeout spares_createElement
  spares_createIframe spares_modify_onload spares_insert_target
  spares_body_append spares_removeChild : pres.

Lemma spares_el_onload r : preserves (spares cb) (el_onload r).
Proof. unfold el_onload. pres. Qed.

Lemma spares_el_onreadystatechange r rs :
  preserves (spares cb) (el_onreadystatechange r rs).
Proof. unfold el_onreadystatechange. pres; apply spares_el_onload. Qed.

Lemma spares_unload_ els : preserves (spares cb) (unload_ els).
Proof. induction els; simpl; pres. Qed.

Hint Resolve spares_el_onload spares_el_onreadystatechange spares_unload_
  : pres.

Lemma spares_completion h : preserves (spares cb) (completion h).
Proof. unfold completion, dataset_get. pres. Qed.

Lemma spares_load_ type url id cls fn d :
  preserves (spares cb) (load_ env type url id cls fn d).
Proof. unfold load_. pres; discriminate. Qed.

Hint Resolve spares_completion spares_load_ : pres.

Lemma spares_load type url c name :
  c ≠ Some cb → preserves (spares cb) (load env type url c name).
Proof.
  intros Hc. unfold load, dataset_get. pres; congruence.
Qed.

Lemma spares_unload type url : preserves (spares cb) (unload env type url).
Proof. unfold unload. pres. Qed.

Lemma spares_ignore type url : preserves (spares cb) (ignore env type url).
Proof. unfold ignore. pres. Qed.

Lemma spares_prefetch type url :
  preserves (spares cb) (prefetch env type url).
Proof. unfold prefetch. pres. Qed.

Lemma spares_prefetch_deferred type url id ifr :
  preserves (spares cb) (prefetch_deferred env type url id ifr).
Proof. unfold prefetch_deferred. pres; discriminate. Qed.

Lemma spares_run_timer k : preserves (spares cb) (run_timer env k).
Proof.
  intros s o s' H. unfold run_timer in H.
  destruct (timers s !! k) as [t|]; [|inversion H; subst; reflexivity].
  trans (set_timers (delete k (timers s)) s); [by apply spares_same|].
  destruct t; simpl in H.
  - by eapply spares_completion.
  - by eapply spares_prefetch_deferred.
Qed.

Lemma spares_exec o : passes cb o = false → preserves (spares cb) (exec env o).
Proof.
  intros Hp. destruct o; simpl.
  - apply preserves_bind; [apply _| |intros; apply preserves_ret; apply _].
    apply spares_load. destruct cb0; [|done]. simpl in Hp.
    apply bool_decide_eq_false in Hp. congruence.
  - apply spares_unload.
  - apply spares_ignore.
  - apply spares_prefetch.
  - apply spares_el_onload.
  - apply spares_el_onreadystatechange.
  - apply spares_run_timer.
Qed.

Lemma spares_run ops s :
  Forall (λ o, passes cb o = false) ops → spares cb s (run env ops s).
Proof.
  intros Hops. revert s. induction Hops as [|o ops Ho _ IH]; intros s.
  - reflexivity.
  - simpl. trans (exec env o s).2; [|apply IH].
    destruct (exec env o s) as [out s1] eqn:He. simpl.
    by eapply spares_exec.
Qed.

End spares.

(** ** Deferred completion, and ignoring *)

Section deferred.

Context (env : host).

(** C6. An element that [load_] creates with a completion function gets
    handlers that never call the function: during [load_], also when the
    engine dispatches the load event synchronously on insertion, the only
    trace of the completion is a timer in the queue, and markers and
    subscriptions are as before; afterwards a load event queues the
    function with [setTimeout], the readiness states ['loaded'] and
    ['complete'] do exactly what the load event does, any other readiness
    state does nothing, and the function runs when the timer fires. *)
Theorem completion_is_deferred type url id cls f d x s :
  type = "js" ∨ type = "css" →
  lookup_doc (default MainDoc d) s = Some x →
  let el := new_element (next_ref s) type url id cls in
  (∃ s1,
     load_ env type url id cls (Some f) d s = (Normal (Some el), s1) ∧
     onload s1 !! e_ref el = Some (Some (f el)) ∧
     dataset s1 = dataset s ∧ subscriptions s1 = subscriptions s ∧
     timers s1 =
       timers s ++ (if sync_onload env url then [THook (f el)] else []) ∧
     log s1 =
       log s ++ [EvCreate (e_ref el) (tag_of type);
                 EvLocator (e_ref el)
                   (if bool_decide (type = "js") then "src" else "href") url;
                 EvInsert (default MainDoc d) (e_ref el)]) ∧
  (∀ r h s2,
     onload s2 !! r = Some (Some h) →
     el_onload r s2 = (Normal tt, set_timers (timers s2 ++ [THook h]) s2) ∧
     el_onreadystatechange r "loaded" s2 = el_onload r s2 ∧
     el_onreadystatechange r "complete" s2 = el_onload r s2 ∧
     (∀ rs, rs ≠ "loaded" → rs ≠ "complete" →
            el_onreadystatechange r rs s2 = (Normal tt, s2))) ∧
  (∀ k h s2,
     timers s2 !! k = Some (THook h) →
     run_timer env k s2 =
     completion h (set_timers (delete k (timers s2)) s2)).
Proof.
  intros Hty Hx el. split; [|split].
  - eexists. split; [by apply load__eq|].
    unfold after_load_. simpl. rewrite lookup_insert_eq.
    repeat split; reflexivity.
  - intros r h s2 Hh. split; [by apply el_onload_queues|].
    split; [reflexivity|]. split; [reflexivity|].
    intros rs H1 H2. unfold el_onreadystatechange.
    by rewrite !bool_decide_eq_false_2.
  - intros k h s2 Hk. unfold run_timer. by rewrite Hk.
Qed.

(** C9. For an accepted type, [ignore] drops the topic of the id and logs
    that, and nothing else changes: document, frames, markers, handlers and
    timers are the same.  Then a callback that was subscribed under no other
    topic is never invoked, whatever happens next, unless a later [load]
    passes it again.  And whenever the completion hook of an element runs
    for the first time, it still sets the marker, and it leaves in the
    document every element that is not in its snapshot. *)
Theorem ignore_clears_only_the_topic type url s :
  type = "js" ∨ type = "css" →
  let id := resource_id env type url in
  let s' := State (document s) (frames s) (next_ref s) (dataset s)
                  (delete id (subscriptions s)) (onload s) (timers s)
                  (log s ++ [EvClear id]) in
  ignore env type url s = (Normal tt, s') ∧
  (∀ cb ops,
     (∀ t, t ≠ id → cb ∉ default [] (subscriptions s !! t)) →
     Forall (λ o, passes cb o = false) ops →
     EvCall cb ∉ log_since s' (run env ops s')) ∧
  (∀ h s1 o s2,
     truthy (dataset s1 !! (e_ref (h_el h), "loaded")) = false →
     completion h s1 = (o, s2) →
     dataset s2 !! (e_ref (h_el h), "loaded") = Some "true" ∧
     (∀ x, x ∈ main_elements s1 → e_ref x ∉ refs (h_elsToRemove h) →
           x ∈ main_elements s2)).
Proof.
  intros Hty id s'. split; [|split].
  - unfold ignore. by rewrite (proj2 (unsupported_false type) Hty).
  - intros cb ops Hother Hops.
    assert (unsubscribed cb s') as Hun.
    { intros t. unfold s'. simpl. destruct (decide (t = id)) as [->|Hne].
      - rewrite lookup_delete_eq. apply not_elem_of_nil.
      - rewrite lookup_delete_ne by done. by apply Hother. }
    destruct (spares_run env cb ops s' Hops Hun) as (_ & l & Hl & Hn).
    unfold log_since. rewrite Hl. by rewrite drop_app_length.
  - intros h s1 o s2 Hm Hc.
    apply completion_effect in Hc as (Hd & _ & _ & _ & _ & Hkeep & _);
      [|done].
    split; [|done]. rewrite Hd. apply lookup_insert_eq.
Qed.

End deferred.

(** ** Named generations *)

Section generations.

Context (env : host).

Lemma main_unloaded els s :
  main_elements (unloaded els s) =
  filter (λ x, e_ref x ∉ refs els) (main_elements s).
Proof.
  revert s. induction els as [|e els IH]; intros s; simpl.
  - symmetry. induction (main_elements s) as [|x l IHl]; [done|].
    rewrite filter_cons_True by apply not_elem_of_nil. by rewrite IHl.
  - rewrite IH. unfold main_elements. simpl.
    rewrite doc_elements_remove. unfold remove_ref.
    rewrite list_filter_filter. apply list_filter_iff.
    intros x. rewrite not_elem_of_cons. tauto.
Qed.

Lemma unloaded_fields els s :
  frames (unloaded els s) = frames s ∧
  next_ref (unloaded els s) = next_ref s ∧
  dataset (unloaded els s) = dataset s ∧
  onload (unloaded els s) = onload s ∧
  timers (unloaded els s) = timers s.
Proof.
  revert s. induction els as [|e els IH]; intros s; [done|].
  simpl. by destruct (IH (State (doc_remove (e_ref e) (document s)) (frames s)
    (next_ref s) (dataset s) (delete (e_id e) (subscriptions s)) (onload s)
    (timers s) (log s ++ [EvClear (e_id e); EvRemove (e_ref e)])))
    as (-> & -> & -> & -> & ->).
Qed.

Lemma unloaded_subscriptions els s t :
  t ∉ e_id <$> els →
  subscriptions (unloaded els s) !! t = subscriptions s !! t.
Proof.
  revert s. induction els as [|e els IH]; intros s Hni; [done|].
  rewrite fmap_cons in Hni. apply not_elem_of_cons in Hni as [Hne Hni].
  simpl. rewrite IH by done. simpl. by rewrite lookup_delete_ne.
Qed.

(** The first run of the hook when all its removals succeed. *)
Lemma completion_first_run h s :
  truthy (dataset s !! (e_ref (h_el h), "loaded")) = false →
  NoDup (refs (h_elsToRemove h)) →
  (∀ r, r ∈ refs (h_elsToRemove h) → r ∈ refs (main_elements s)) →
  completion h s = (Normal tt, completed h s).
Proof.
  intros Hm Hnd Hin. unfold completion, bind at 1, dataset_get, gets.
  rewrite Hm. unfold bind at 1.
  change (dataset_set (h_el h) "loaded" "true" s)
    with (Normal tt, marked (h_el h) s).
  unfold bind at 1. rewrite unload__attached by done.
  unfold bind at 1. rewrite publish_eq, clear_eq.
  unfold completed. f_equal.
  unfold set_log, set_subscriptions. simpl.
  rewrite delete_delete_eq. f_equal.
  by rewrite <- app_assoc.
Qed.

Lemma same_generation_elem tag cls l x :
  x ∈ same_generation tag cls l ↔ bears tag cls x ∧ x ∈ l.
Proof. unfold same_generation. apply list_elem_of_filter. Qed.

Lemma matching_elem p d x :
  x ∈ matching p d ↔ p d x = true ∧ x ∈ doc_elements d.
Proof.
  unfold matching. apply (list_elem_of_filter (λ e, p d e = true)).
Qed.

Lemma matching_bears p tag cls d :
  (∀ d e, p d e = true ↔ bears tag cls e) →
  matching p d = same_generation tag cls (doc_elements d).
Proof.
  intros Hp. unfold matching, same_generation. apply list_filter_iff.
  intros e. apply Hp.
Qed.

Lemma class_match_single tag cls d e :
  class_match tag [cls] d e = true ↔ bears tag cls e.
Proof.
  unfold class_match, bears. simpl. rewrite andb_true_r, andb_true_iff.
  by rewrite !bool_decide_eq_true.
Qed.

Lemma queryable_selected type name p :
  selects env (tag_of type +:+ "." +:+ name) = Some p →
  queryable env type (Some name) = true.
Proof.
  intros H. unfold queryable, selector. simpl. rewrite H.
  apply orb_true_r.
Qed.

Lemma new_element_in_main type url id cls fn x s :
  new_element (next_ref s) type url id cls
    ∈ main_elements (after_load_ env type url id cls fn MainDoc x s).
Proof.
  unfold main_elements, after_load_. simpl.
  rewrite doc_elements_insert. apply list_elem_of_here.
Qed.

Lemma subscribed_fields id cb s :
  document (subscribed id cb s) = document s ∧
  frames (subscribed id cb s) = frames s ∧
  next_ref (subscribed id cb s) = next_ref s ∧
  dataset (subscribed id cb s) = dataset s ∧
  onload (subscribed id cb s) = onload s ∧
  timers (subscribed id cb s) = timers s.
Proof. by destruct cb. Qed.

Lemma snapshot_named type name p s :
  name ≠ "" →
  selects env (tag_of type +:+ "." +:+ name) = Some p →
  snapshot env type (Some name) s = matching p (document s).
Proof.
  intros Hn Hp. unfold snapshot, selector. simpl.
  rewrite bool_decide_eq_false_2 by done. by rewrite Hp.
Qed.

Lemma snapshot_sublist type name s :
  snapshot env type name s `sublist_of` main_elements s.
Proof.
  unfold snapshot. destruct (bool_decide _); [apply sublist_nil_l|].
  destruct (selects env _); [|apply sublist_nil_l].
  apply sublist_filter.
Qed.

Lemma snapshot_refs_allocated type name s r :
  allocated s → r ∈ refs (snapshot env type name s) → r < next_ref s.
Proof.
  intros Hal Hr. apply Hal.
  apply elem_of_refs in Hr as (x & Hx & <-).
  apply elem_of_refs. exists x. split; [|done].
  eapply elem_of_sublist; [exact Hx|apply snapshot_sublist].
Qed.

(** The hook never removes an element whose node is not in its
    snapshot. *)
Lemma completion_keeps h s o s' x :
  completion h s = (o, s') →
  x ∈ main_elements s → e_ref x ∉ refs (h_elsToRemove h) →
  x ∈ main_elements s'.
Proof.
  intros Hc Hx Hni.
  destruct (truthy (dataset s !! (e_ref (h_el h), "loaded"))) eqn:Hm.
  - unfold completion, bind at 1, dataset_get, gets in Hc.
    rewrite Hm in Hc. by inversion Hc; subst.
  - apply completion_effect in Hc as (_ & _ & _ & _ & _ & Hkeep & _);
      [by apply Hkeep|done].
Qed.

(** C10. A named [load] that has to create its element, which it does
    when the engine takes [tag + '.' + name] as a selector, takes the
    snapshot from the document as it is before the Loader runs: the closure
    that the new element's handlers hold carries exactly what the query of
    that selector gives on the state before the call, all of it elements
    of that state.  The new element has the tag and the name as its class
    and is in the document after the call, yet it is not in its own
    snapshot, neither as an element nor as a node; so whenever the hook
    runs, however it ends, the new element is still in the document. *)
Theorem snapshot_excludes_new_element type url cb name p s :
  type = "js" ∨ type = "css" →
  name ≠ "" →
  allocated s →
  find_id (resource_id env type url) (main_elements s) = None →
  selects env (tag_of type +:+ "." +:+ name) = Some p →
  let id := resource_id env type url in
  let snap := matching p (document s) in
  query env (tag_of type +:+ "." +:+ name) s = (Normal snap, s) ∧
  (∀ x, x ∈ snap → x ∈ main_elements s) ∧
  ∃ el s1,
    load env type url cb (Some name) s = (Normal (Some el), s1) ∧
    onload s1 !! e_ref el = Some (Some (Hook el id snap)) ∧
    tagName el = tag_of type ∧ className el = name ∧
    el ∈ main_elements s1 ∧
    (el ∉ snap) ∧ (e_ref el ∉ refs snap) ∧
    ∀ s2 o s3,
      el ∈ main_elements s2 →
      completion (Hook el id snap) s2 = (o, s3) →
      el ∈ main_elements s3.
Proof.
  intros Hty Hname Hal Hfind Hsel id snap.
  split; [unfold query; by rewrite Hsel|].
  split; [intros x Hx; by apply matching_elem in Hx as [_ ?]|].
  eexists _, _. split.
  { apply load_absent_eq; [done|done|by eapply queryable_selected]. }
  rewrite (snapshot_named type name p) by done. fold id snap.
  destruct (subscribed_fields id cb s) as (Hdoc & _ & Hnext & _).
  assert (next_ref s ∉ refs snap) as Hfresh.
  { intros Hr. unfold snap in Hr.
    rewrite <- (snapshot_named type name p s) in Hr by done.
    apply (snapshot_refs_allocated _ _ _ _ Hal) in Hr. lia. }
  split; [|split; [|split; [|split; [|split; [|split]]]]].
  - unfold after_load_. simpl. rewrite Hnext. apply lookup_insert_eq.
  - done.
  - done.
  - rewrite <- Hnext. apply new_element_in_main.
  - intros Hin. apply Hfresh. apply elem_of_refs.
    eexists. split; [exact Hin|]. done.
  - done.
  - intros s2 o s3 Hin Hc. by eapply completion_keeps.
Qed.

Lemma snapshot_NoDup type name s :
  NoDup (refs (main_elements s)) → NoDup (refs (snapshot env type name s)).
Proof.
  intros Hnd. eapply sublist_NoDup; [exact Hnd|].
  unfold refs. apply fmap_sublist, snapshot_sublist.
Qed.

Lemma main_completed h s :
  main_elements (completed h s) =
  filter (λ x, e_ref x ∉ refs (h_elsToRemove h)) (main_elements s).
Proof.
  unfold completed.
  change (main_elements (State _ _ _ _ _ _ _ _))
    with (main_elements (unloaded (h_elsToRemove h) (marked (h_el h) s))).
  by rewrite main_unloaded.
Qed.

Lemma NoDup_all_equal {A} (l : list A) (a : A) :
  NoDup l → (∀ x, x ∈ l → x = a) → length l ≤ 1.
Proof.
  intros Hnd Hall. destruct l as [|x [|y l]]; simpl; [lia|lia|].
  apply NoDup_cons in Hnd as [Hni _]. exfalso. apply Hni.
  rewrite (Hall x) by apply list_elem_of_here.
  rewrite <- (Hall y) by (apply list_elem_of_further, list_elem_of_here).
  apply list_elem_of_here.
Qed.

(** C3, as the code has it.  The name is one for which the engine takes
    [tag + '.' + name] as the selector of the elements that have the tag
    and, among their classes, the name; a name that is one plain class
    identifier.  A [load] with such a name that creates its element
    registers a hook whose snapshot is exactly the elements of the tag that
    bear the name in the document before the call.  When the hook runs for
    the first time and the elements of the snapshot are still in the
    document, it ends normally and the document loses exactly the nodes of
    the snapshot: elements added since the snapshot stay.  If, besides the
    new element, no other element of the tag that bears the name has come
    into the document, then the new element is the only one left that
    bears it, so at most one remains. *)
Theorem named_swap_removes_the_snapshot type url cb name p s :
  type = "js" ∨ type = "css" →
  name ≠ "" →
  wf s →
  find_id (resource_id env type url) (main_elements s) = None →
  selects env (tag_of type +:+ "." +:+ name) = Some p →
  (∀ d e, p d e = true ↔ bears (tag_of type) name e) →
  let id := resource_id env type url in
  let snap := same_generation (tag_of type) name (main_elements s) in
  ∃ el s1,
    load env type url cb (Some name) s = (Normal (Some el), s1) ∧
    onload s1 !! e_ref el = Some (Some (Hook el id snap)) ∧
    ∀ s2,
      truthy (dataset s2 !! (e_ref el, "loaded")) = false →
      (∀ x, x ∈ snap → e_ref x ∈ refs (main_elements s2)) →
      ∃ s3,
        completion (Hook el id snap) s2 = (Normal tt, s3) ∧
        main_elements s3 =
          filter (λ x, e_ref x ∉ refs snap) (main_elements s2) ∧
        (∀ x, x ∈ snap → x ∉ main_elements s3) ∧
        (NoDup (main_elements s2) →
         (∀ x, x ∈ same_generation (tag_of type) name (main_elements s2) →
               x = el ∨ x ∈ snap) →
         (∀ x, x ∈ same_generation (tag_of type) name (main_elements s3) →
               x = el) ∧
         length (same_generation (tag_of type) name (main_elements s3)) ≤ 1).
Proof.
  intros Hty Hname [Hnd Hal] Hfind Hsel Hp id snap.
  assert (snapshot env type (Some name) s = snap) as Hsnap.
  { rewrite (snapshot_named type name p) by done.
    by apply matching_bears. }
  eexists _, _. split.
  { apply load_absent_eq; [done|done|by eapply queryable_selected]. }
  rewrite Hsnap. fold id.
  destruct (subscribed_fields id cb s) as (Hdoc & _ & Hnext & _).
  split.
  { unfold after_load_. simpl. rewrite Hnext. apply lookup_insert_eq. }
  intros s2 Hm Hatt.
  set (el := new_element (next_ref s) type url id name) in *.
  exists (completed (Hook el id snap) s2).
  assert (main_elements (completed (Hook el id snap) s2) =
          filter (λ x, e_ref x ∉ refs snap) (main_elements s2)) as Hmain
    by apply main_completed.
  split; [|split; [done|split]].
  - apply completion_first_run; simpl; [done| |].
    + rewrite <- Hsnap. by apply snapshot_NoDup.
    + intros r (x & Hx & <-)%elem_of_refs. by apply Hatt.
  - intros x Hx Hin. rewrite Hmain in Hin.
    apply list_elem_of_filter in Hin as [Hni _]. apply Hni.
    apply elem_of_refs. eauto.
  - intros Hnd2 Hgen.
    assert (∀ x, x ∈ same_generation (tag_of type) name
                   (main_elements (completed (Hook el id snap) s2)) →
                 x = el) as Hall.
    { intros x Hx. rewrite Hmain in Hx.
      apply same_generation_elem in Hx as [Hb Hx].
      apply list_elem_of_filter in Hx as [Hni Hx].
      destruct (Hgen x) as [->|Hs]; [by apply same_generation_elem|done|].
      destruct Hni. apply elem_of_refs. eauto. }
    split; [done|].
    apply (NoDup_all_equal _ el); [|done].
    rewrite Hmain. unfold same_generation.
    by do 2 apply NoDup_filter.
Qed.

End generations.

(** ** One element per identity *)

Lemma pretty_N_go_not_p (x : N) (s s' : string) :
  (∀ t, s ≠ "p" +:+ t) → pretty_N_go x s ≠ "p" +:+ s'.
Proof.
  revert s. induction (N.lt_wf_0 x) as [x _ IH]; intros s Hs.
  destruct (decide (x = 0)%N) as [->|Hx].
  - rewrite pretty_N_go_0. apply Hs.
  - rewrite pretty_N_go_step by lia. apply IH.
    + apply N.div_lt; lia.
    + intros t. unfold pretty_N_char. repeat case_match; discriminate.
Qed.

Lemma pretty_N_not_prefetch (n : N) : pretty n ≠ "prefetch".
Proof.
  unfold pretty, pretty_N. case_decide; [discriminate|].
  apply (pretty_N_go_not_p n "" "refetch"). discriminate.
Qed.

Lemma resource_id_not_iframe_id env type url type' :
  type = "js" ∨ type = "css" → type' = "js" ∨ type' = "css" →
  iframe_id type' ≠ resource_id env type url.
Proof.
  unfold iframe_id, resource_id.
  intros [-> | ->] [-> | ->]; simpl; try discriminate;
    intros H; injection H as H; symmetry in H;
    by apply pretty_N_not_prefetch in H.
Qed.

Lemma count_id_perm id l1 l2 : l1 ≡ₚ l2 → count_id id l1 = count_id id l2.
Proof. intros H. unfold count_id. by rewrite H. Qed.

Lemma count_id_cons id e l :
  count_id id (e :: l) =
  (if decide (e_id e = id) then 1 else 0) + count_id id l.
Proof. unfold count_id. rewrite filter_cons. by destruct (decide _). Qed.

Section one_element.

Context (env : host) (id : string).
Hypothesis iframe_id_differs :
  ∀ type, unsupported type = false → iframe_id type ≠ id.

Global Instance no_more_preorder : PreOrder (no_more id).
Proof.
  split.
  - intros s. unfold no_more. lia.
  - intros s1 s2 s3. unfold no_more. lia.
Qed.

Lemma no_more_same s s' : document s' = document s → no_more id s s'.
Proof. intros H. unfold no_more, main_elements. rewrite H. lia. Qed.

Lemma no_more_emit ev : preserves (no_more id) (emit ev).
Proof. intros s o s' H. inversion H; subst. by apply no_more_same. Qed.

Lemma no_more_subscribe t c : preserves (no_more id) (subscribe t c).
Proof. intros s o s' H. inversion H; subst. by apply no_more_same. Qed.

Lemma no_more_clear t : preserves (no_more id) (clear t).
Proof. intros s o s' H. inversion H; subst. by apply no_more_same. Qed.

Lemma no_more_publish t : preserves (no_more id) (publish t).
Proof.
  intros s o s' H. rewrite publish_eq in H. inversion H; subst.
  by apply no_more_same.
Qed.

Lemma no_more_dataset_set e k v : preserves (no_more id) (dataset_set e k v).
Proof. intros s o s' H. inversion H; subst. by apply no_more_same. Qed.

Lemma no_more_setTimeout t : preserves (no_more id) (setTimeout t).
Proof. intros s o s' H. inversion H; subst. by apply no_more_same. Qed.

Lemma no_more_createElement tag : preserves (no_more id) (createElement tag).
Proof. intros s o s' H. inversion H; subst. by apply no_more_same. Qed.

Lemma no_more_modify_onload f :
  preserves (no_more id) (modify (λ s, set_onload (f s) s)).
Proof. intros s o s' H. inversion H; subst. by apply no_more_same. Qed.

Lemma no_more_insert_frame front e f :
  preserves (no_more id) (insert_target front e (FrameDoc f)).
Proof.
  intros s o s' H. unfold insert_target in H.
  destruct (lookup_doc _ s); inversion H; subst; by apply no_more_same.
Qed.

Lemma no_more_body_append_frame e f :
  preserves (no_more id) (body_append e (FrameDoc f)).
Proof.
  intros s o s' H. unfold body_append in H.
  destruct (lookup_doc _ s); inversion H; subst; by apply no_more_same.
Qed.

Lemma no_more_createIframe type :
  unsupported type = false →
  preserves (no_more id) (createIframe (iframe_id type)).
Proof.
  intros Hty s o s' H. inversion H; subst; clear H.
  unfold no_more, main_elements, doc_elements. simpl.
  rewrite app_assoc. unfold count_id. rewrite filter_app.
  rewrite filter_cons_False by (simpl; by apply iframe_id_differs).
  rewrite filter_nil, app_nil_r. lia.
Qed.

Lemma no_more_removeChild e : preserves (no_more id) (removeChild_of_parent e).
Proof.
  intros s o s' H. apply removeChild_effect in H
    as (_ & _ & _ & _ & _ & Hsub & _).
  by apply count_id_sublist.
Qed.

Hint Resolve no_more_emit no_more_subscribe no_more_clear no_more_publish
  no_more_dataset_set no_more_setTimeout no_more_createElement
  no_more_modify_onload no_more_insert_frame no_more_body_append_frame
  no_more_createIframe no_more_removeChild : pres.

Lemma no_more_el_onload r : preserves (no_more id) (el_onload r).
Proof. unfold el_onload. pres. Qed.

Lemma no_more_el_onreadystatechange r rs :
  preserves (no_more id) (el_onreadystatechange r rs).
Proof. unfold el_onreadystatechange. pres; apply no_more_el_onload. Qed.

Lemma no_more_unload_ els : preserves (no_more id) (unload_ els).
Proof. induction els; simpl; pres. Qed.

Hint Resolve no_more_el_onload no_more_unload_ : pres.

Lemma no_more_completion h : preserves (no_more id) (completion h).
Proof. unfold completion, dataset_get, call. pres. Qed.

Lemma no_more_load__frame type url i cls fn f :
  preserves (no_more id) (load_ env type url i cls fn (Some (FrameDoc f))).
Proof. unfold load_. simpl. pres. Qed.

Hint Resolve no_more_completion no_more_load__frame : pres.

Lemma no_more_unload type url : preserves (no_more id) (unload env type url).
Proof. unfold unload. pres. Qed.

Lemma no_more_ignore type url : preserves (no_more id) (ignore env type url).
Proof. unfold ignore. pres. Qed.

Lemma no_more_prefetch type url :
  preserves (no_more id) (prefetch env type url).
Proof. unfold prefetch. pres. Qed.

Lemma no_more_prefetch_deferred type url i ifr :
  preserves (no_more id) (prefetch_deferred env type url i ifr).
Proof. unfold prefetch_deferred. pres. Qed.

Lemma no_more_run_timer k : preserves (no_more id) (run_timer env k).
Proof.
  intros s o s' H. unfold run_timer in H.
  destruct (timers s !! k) as [t|]; [|inversion H; subst; reflexivity].
  trans (set_timers (delete k (timers s)) s); [by apply no_more_same|].
  destruct t; simpl in H.
  - by eapply no_more_completion.
  - by eapply no_more_prefetch_deferred.
Qed.

(** [load] adds an element only when the document has none with its id. *)
Lemma load_keeps_one type url cb name s o s' :
  load env type url cb name s = (o, s') →
  count_id id (main_elements s) ≤ 1 → count_id id (main_elements s') ≤ 1.
Proof.
  intros H Hone.
  destruct (unsupported type) eqn:Hty.
  { unfold load in H. rewrite Hty in H. by inversion H; subst. }
  apply unsupported_false in Hty.
  destruct (find_id (resource_id env type url) (main_elements s))
    as [el|] eqn:Hfind.
  - destruct (truthy (dataset s !! (e_ref el, "loaded"))) eqn:Hm.
    + destruct (dataset s !! (e_ref el, "loaded")) as [v|] eqn:Hv;
        [|discriminate].
      simpl in Hm. apply negb_true_iff, bool_decide_eq_false in Hm.
      rewrite (load_loaded_eq env type url cb name el v s) in H by done.
      inversion H; subst. by destruct cb.
    + rewrite (load_loading_eq env type url cb name el s) in H by done.
      inversion H; subst. by destruct cb.
  - destruct (queryable env type name) eqn:Hq;
      [|rewrite load_absent_raises in H by done; inversion H; subst;
        by destruct cb].
    rewrite load_absent_eq in H by done. inversion H; subst; clear H.
    unfold main_elements, after_load_. simpl.
    rewrite (count_id_perm _ _ _ (doc_elements_insert _ _ _)).
    rewrite count_id_cons. simpl.
    destruct (decide (resource_id env type url = id)) as [<-|Hne].
    + apply find_id_None in Hfind. unfold main_elements in *. lia.
    + unfold main_elements in *. lia.
Qed.

Lemma exec_keeps_one o s out s' :
  exec env o s = (out, s') →
  count_id id (main_elements s) ≤ 1 → count_id id (main_elements s') ≤ 1.
Proof.
  intros H Hone.
  assert (no_more id s s' → count_id id (main_elements s') ≤ 1) as Hnm
    by (unfold no_more; lia).
  destruct o; simpl in H.
  - unfold bind in H.
    destruct (load env type url cb name s) as [[a|] s1] eqn:Hl;
      inversion H; subst; by eapply load_keeps_one.
  - apply Hnm. by eapply no_more_unload.
  - apply Hnm. by eapply no_more_ignore.
  - apply Hnm. by eapply no_more_prefetch.
  - apply Hnm. by eapply no_more_el_onload.
  - apply Hnm. by eapply no_more_el_onreadystatechange.
  - apply Hnm. by eapply no_more_run_timer.
Qed.

Lemma run_keeps_one ops s :
  count_id id (main_elements s) ≤ 1 →
  count_id id (main_elements (run env ops s)) ≤ 1.
Proof.
  revert s. induction ops as [|o ops IH]; intros s Hone; [done|].
  simpl. apply IH.
  destruct (exec env o s) as [out s1] eqn:He. simpl.
  by eapply exec_keeps_one.
Qed.

End one_element.

(** C1. For an accepted type and any URL: if the document has at most one
    element with the derived id, then it still has at most one after any
    sequence of operations (calls of [load], [unload], [ignore] and
    [prefetch] with any arguments, load and readiness events, timers); and
    a [load] that finds the element returns it without running the Loader:
    the documents, the node allocator, the handlers and the timers are as
    before, and the log gets no creation, no locator assignment and no
    insertion, so there is no second element and no second request. *)
Theorem at_most_one_element env type url s :
  type = "js" ∨ type = "css" →
  count_id (resource_id env type url) (main_elements s) ≤ 1 →
  (∀ ops,
     count_id (resource_id env type url) (main_elements (run env ops s)) ≤ 1) ∧
  (∀ el cb name,
     find_id (resource_id env type url) (main_elements s) = Some el →
     ∃ s',
       load env type url cb name s = (Normal (Some el), s') ∧
       document s' = document s ∧ frames s' = frames s ∧
       next_ref s' = next_ref s ∧ onload s' = onload s ∧
       timers s' = timers s ∧
       ∃ l, log s' = log s ++ l ∧ Forall (λ ev, is_dom_event ev = false) l).
Proof.
  intros Hty Hone. split.
  - intros ops. apply run_keeps_one; [|done].
    intros type' Hty'. apply resource_id_not_iframe_id; [done|].
    by apply unsupported_false.
  - intros el cb name Hfind.
    destruct (truthy (dataset s !! (e_ref el, "loaded"))) eqn:Hm.
    + destruct (dataset s !! (e_ref el, "loaded")) as [v|] eqn:Hv;
        [|discriminate].
      simpl in Hm. apply negb_true_iff, bool_decide_eq_false in Hm.
      eexists. split; [by eapply load_loaded_eq|].
      destruct cb as [c|]; simpl; repeat split; try done.
      * exists [EvCall c]. split; [done|]. by repeat constructor.
      * exists []. split; [by rewrite app_nil_r|]. constructor.
    + eexists. split; [by eapply load_loading_eq|].
      destruct cb as [c|]; simpl; repeat split; try done.
      * exists [EvSubscribe (resource_id env type url) c].
        split; [done|]. by repeat constructor.
      * exists []. split; [by rewrite app_nil_r|]. constructor.
Qed.

(** ** Prefetching *)

Section prefetching.

Context (env : host).

Lemma prefetch_deferred_effect type url id ifr d s :
  type = "js" ∨ type = "css" →
  frames s !! e_ref ifr = Some d →
  ∃ s',
    prefetch_deferred env type url id ifr s = (Normal tt, s') ∧
    document s' = document s ∧ dataset s' = dataset s ∧
    subscriptions s' = subscriptions s ∧ timers s' = timers s ∧
    (∃ d' e, frames s' !! e_ref ifr = Some d' ∧ e ∈ doc_elements d' ∧
             e_id e = id ∧ tagName e = (if bool_decide (type = "js")
                                        then "object" else "link")) ∧
    (∃ l r attr, log s' = log s ++ l ∧ EvLocator r attr url ∈ l ∧
                 Forall (λ ev, is_call ev = false) l).
Proof.
  intros Hty Hd. unfold prefetch_deferred.
  unfold bind at 1, gets. simpl. rewrite Hd.
  destruct Hty as [-> | ->]; simpl.
  - destruct (IS_IE env).
    + unfold bind, createElement, emit, modify, body_append. simpl.
      rewrite Hd. eexists. split; [reflexivity|]. simpl.
      rewrite lookup_insert_eq. repeat split; try done.
      * eexists _, _. split; [reflexivity|].
        split; [unfold doc_elements; simpl; rewrite elem_of_app; right;
                rewrite elem_of_app; right; apply list_elem_of_here
               |by split].
      * eexists _, _, _. split.
        { rewrite <- !app_assoc. reflexivity. }
        split; [|by repeat constructor].
        simpl. do 2 apply list_elem_of_further. apply list_elem_of_here.
    + unfold bind, createElement, emit, modify, body_append. simpl.
      rewrite Hd. eexists. split; [reflexivity|]. simpl.
      rewrite lookup_insert_eq. repeat split; try done.
      * eexists _, _. split; [reflexivity|].
        split; [unfold doc_elements; simpl; rewrite elem_of_app; right;
                rewrite elem_of_app; right; apply list_elem_of_here
               |by split].
      * eexists _, _, _. split.
        { rewrite <- !app_assoc. reflexivity. }
        split; [|by repeat constructor].
        simpl. apply list_elem_of_further. apply list_elem_of_here.
  - unfold bind at 1.
    rewrite (load__eq env "css" url id "" None (Some (FrameDoc (e_ref ifr))) d)
      by (by auto).
    eexists. split; [reflexivity|]. unfold after_load_. simpl.
    rewrite lookup_insert_eq. rewrite app_nil_r. repeat split; try done.
    + eexists _, _. split; [reflexivity|].
      split; [rewrite doc_elements_insert; apply list_elem_of_here
             |by split].
    + eexists _, _, _. split; [done|].
      split; [|by repeat constructor].
      apply list_elem_of_further. apply list_elem_of_here.
Qed.

(** C7, as the code has it.  For an accepted type, [prefetch] does nothing
    when the main document has an element with the derived id, and nothing
    when the browsing context of the type exists and its document has an
    element with that id.  When the main document has an element with the
    key of the type that has no content document, it raises a TypeError and
    queues nothing.  Otherwise it queues the fetch, after creating the
    context when the main document has no element with the key of the type:
    the key is [type + '-prefetch'], so there is one hidden context per
    resource type, and the contexts of scripts and of styles differ.  When
    the queued function runs on a page where the context has its document,
    the main document, the markers, the subscriptions and the timers stay as
    they are, an element with the id is in the document of the context, a
    locator is assigned the URL, and no callback is invoked. *)
Theorem prefetch_uses_a_context_per_type type url s :
  type = "js" ∨ type = "css" →
  let id := resource_id env type url in
  (is_Some (find_id id (main_elements s)) →
   prefetch env type url s = (Normal tt, s)) ∧
  (find_id id (main_elements s) = None →
   (∀ ifr d,
      find_id (iframe_id type) (main_elements s) = Some ifr →
      frames s !! e_ref ifr = Some d →
      (is_Some (find_id id (doc_elements d)) →
       prefetch env type url s = (Normal tt, s)) ∧
      (find_id id (doc_elements d) = None →
       prefetch env type url s =
       (Normal tt, set_timers (timers s ++ [TPrefetch type url id ifr]) s))) ∧
   (∀ ifr,
      find_id (iframe_id type) (main_elements s) = Some ifr →
      frames s !! e_ref ifr = None →
      prefetch env type url s = (TypeError, s)) ∧
   (find_id (iframe_id type) (main_elements s) = None →
    prefetch env type url s = (Normal tt, with_context type url id s))) ∧
  (∀ ifr d s2,
     frames s2 !! e_ref ifr = Some d →
     ∃ s3,
       prefetch_deferred env type url id ifr s2 = (Normal tt, s3) ∧
       document s3 = document s2 ∧ dataset s3 = dataset s2 ∧
       subscriptions s3 = subscriptions s2 ∧ timers s3 = timers s2 ∧
       (∃ d' e, frames s3 !! e_ref ifr = Some d' ∧ e ∈ doc_elements d' ∧
                e_id e = id ∧
                tagName e = (if bool_decide (type = "js")
                             then "object" else "link")) ∧
       (∃ l r attr, log s3 = log s2 ++ l ∧ EvLocator r attr url ∈ l ∧
                    Forall (λ ev, is_call ev = false) l)) ∧
  iframe_id "js" ≠ iframe_id "css".
Proof.
  intros Hty id.
  pose proof (proj2 (unsupported_false type) Hty) as Hu.
  split; [|split; [|split]].
  - intros [el Hel]. unfold prefetch. rewrite Hu.
    unfold bind at 1, getElementById. simpl.
    unfold main_elements in Hel. fold id. by rewrite Hel.
  - intros Hnone. unfold main_elements in Hnone. split; [|split].
    + intros ifr d Hifr Hd. unfold main_elements in Hifr. split.
      * intros [el Hel]. unfold prefetch. rewrite Hu.
        unfold bind at 1, getElementById. simpl. fold id. rewrite Hnone.
        unfold bind at 1. rewrite Hifr. unfold bind at 1. simpl.
        rewrite Hd. by rewrite Hel.
      * intros Hel. unfold prefetch. rewrite Hu.
        unfold bind at 1, getElementById. simpl. fold id. rewrite Hnone.
        unfold bind at 1. rewrite Hifr. unfold bind at 1. simpl.
        rewrite Hd. by rewrite Hel.
    + intros ifr Hifr Hd. unfold main_elements in Hifr.
      unfold prefetch. rewrite Hu.
      unfold bind at 1, getElementById. simpl. fold id. rewrite Hnone.
      unfold bind at 1. rewrite Hifr. unfold bind at 1. simpl.
      by rewrite Hd.
    + intros Hifr. unfold main_elements in Hifr. unfold prefetch. rewrite Hu.
      unfold bind at 1, getElementById. simpl. fold id. rewrite Hnone.
      unfold bind at 1. rewrite Hifr. reflexivity.
  - intros ifr d s2 Hd. by eapply prefetch_deferred_effect.
  - discriminate.
Qed.

End prefetching.

(** ** Every page reached from the empty page is well formed *)

Section well_formed.

Context (env : host).

Global Instance keeps_wf_preorder : PreOrder keeps_wf.
Proof.
  split.
  - intros s H. exact H.
  - intros s1 s2 s3 H12 H23 H. by apply H23, H12.
Qed.

Lemma keeps_wf_shrink s s' :
  main_elements s' `sublist_of` main_elements s →
  next_ref s ≤ next_ref s' → keeps_wf s s'.
Proof.
  intros Hsub Hle [Hnd Hal]. split.
  - eapply sublist_NoDup; [exact Hnd|]. unfold refs. by apply fmap_sublist.
  - intros r (x & Hx & <-)%elem_of_refs.
    assert (e_ref x < next_ref s); [|lia].
    apply Hal, elem_of_refs. exists x. split; [|done].
    by eapply elem_of_sublist.
Qed.

Lemma keeps_wf_same s s' :
  document s' = document s → next_ref s ≤ next_ref s' → keeps_wf s s'.
Proof.
  intros Hd Hle. apply keeps_wf_shrink; [|done].
  unfold main_elements. by rewrite Hd.
Qed.

Lemma keeps_wf_fresh s s' e :
  main_elements s' ≡ₚ e :: main_elements s →
  e_ref e = next_ref s → next_ref s' = S (next_ref s) → keeps_wf s s'.
Proof.
  intros Hp He Hn [Hnd Hal]. split.
  - unfold refs. rewrite Hp. rewrite fmap_cons. apply NoDup_cons.
    split; [|done]. intros Hin. apply Hal in Hin. lia.
  - intros r Hr. unfold refs in Hr. rewrite Hp, fmap_cons in Hr.
    apply elem_of_cons in Hr as [->|Hr]; [lia|].
    apply Hal in Hr. lia.
Qed.

Lemma keeps_wf_emit ev : preserves keeps_wf (emit ev).
Proof. intros s o s' H. inversion H; subst. by apply keeps_wf_same. Qed.

Lemma keeps_wf_subscribe t c : preserves keeps_wf (subscribe t c).
Proof. intros s o s' H. inversion H; subst. by apply keeps_wf_same. Qed.

Lemma keeps_wf_clear t : preserves keeps_wf (clear t).
Proof. intros s o s' H. inversion H; subst. by apply keeps_wf_same. Qed.

Lemma keeps_wf_publish t : preserves keeps_wf (publish t).
Proof.
  intros s o s' H. rewrite publish_eq in H. inversion H; subst.
  by apply keeps_wf_same.
Qed.

Lemma keeps_wf_dataset_set e k v : preserves keeps_wf (dataset_set e k v).
Proof. intros s o s' H. inversion H; subst. by apply keeps_wf_same. Qed.

Lemma keeps_wf_setTimeout t : preserves keeps_wf (setTimeout t).
Proof. intros s o s' H. inversion H; subst. by apply keeps_wf_same. Qed.

Lemma keeps_wf_createElement tag : preserves keeps_wf (createElement tag).
Proof.
  intros s o s' H. inversion H; subst. apply keeps_wf_same; simpl; [done|lia].
Qed.

Lemma keeps_wf_modify_onload f :
  preserves keeps_wf (modify (λ s, set_onload (f s) s)).
Proof. intros s o s' H. inversion H; subst. by apply keeps_wf_same. Qed.

Lemma keeps_wf_insert_frame front e f :
  preserves keeps_wf (insert_target front e (FrameDoc f)).
Proof.
  intros s o s' H. unfold insert_target in H.
  destruct (lookup_doc _ s); inversion H; subst; by apply keeps_wf_same.
Qed.

Lemma keeps_wf_body_append_frame e f :
  preserves keeps_wf (body_append e (FrameDoc f)).
Proof.
  intros s o s' H. unfold body_append in H.
  destruct (lookup_doc _ s); inversion H; subst; by apply keeps_wf_same.
Qed.

Lemma keeps_wf_createIframe i : preserves keeps_wf (createIframe i).
Proof.
  intros s o s' H. inversion H; subst; clear H.
  apply (keeps_wf_fresh _ _ (Element (next_ref s) "iframe" i "" "" "" "" ""));
    [|reflexivity..].
  unfold main_elements, doc_elements. simpl.
  by rewrite app_assoc, <- Permutation_cons_append.
Qed.

Lemma keeps_wf_removeChild e : preserves keeps_wf (removeChild_of_parent e).
Proof.
  intros s o s' H. apply removeChild_effect in H
    as (Hn & _ & _ & _ & _ & Hsub & _).
  apply keeps_wf_shrink; [done|lia].
Qed.

Hint Resolve keeps_wf_emit keeps_wf_subscribe keeps_wf_clear
  keeps_wf_publish keeps_wf_dataset_set keeps_wf_setTimeout
  keeps_wf_createElement keeps_wf_modify_onload keeps_wf_insert_frame
  keeps_wf_body_append_frame keeps_wf_createIframe keeps_wf_removeChild
  : pres.

Lemma keeps_wf_el_onload r : preserves keeps_wf (el_onload r).
Proof. unfold el_onload. pres. Qed.

Lemma keeps_wf_el_onreadystatechange r rs :
  preserves keeps_wf (el_onreadystatechange r rs).
Proof. unfold el_onreadystatechange. pres; apply keeps_wf_el_onload. Qed.

Lemma keeps_wf_unload_ els : preserves keeps_wf (unload_ els).
Proof. induction els; simpl; pres. Qed.

Hint Resolve keeps_wf_el_onload keeps_wf_unload_ : pres.

Lemma keeps_wf_completion h : preserves keeps_wf (completion h).
Proof. unfold completion, dataset_get, call. pres. Qed.

Lemma keeps_wf_load__frame type url i cls fn f :
  preserves keeps_wf (load_ env type url i cls fn (Some (FrameDoc f))).
Proof. unfold load_. simpl. pres. Qed.

Hint Resolve keeps_wf_completion keeps_wf_load__frame : pres.

Lemma keeps_wf_unload type url : preserves keeps_wf (unload env type url).
Proof. unfold unload. pres. Qed.

Lemma keeps_wf_ignore type url : preserves keeps_wf (ignore env type url).
Proof. unfold ignore. pres. Qed.

Lemma keeps_wf_prefetch type url : preserves keeps_wf (prefetch env type url).
Proof. unfold prefetch. pres. Qed.

Lemma keeps_wf_prefetch_deferred type url i ifr :
  preserves keeps_wf (prefetch_deferred env type url i ifr).
Proof. unfold prefetch_deferred. pres. Qed.

Lemma keeps_wf_run_timer k : preserves keeps_wf (run_timer env k).
Proof.
  intros s o s' H. unfold run_timer in H.
  destruct (timers s !! k) as [t|]; [|inversion H; subst; reflexivity].
  trans (set_timers (delete k (timers s)) s); [by apply keeps_wf_same|].
  destruct t; simpl in H.
  - by eapply keeps_wf_completion.
  - by eapply keeps_wf_prefetch_deferred.
Qed.

Lemma keeps_wf_load type url cb name :
  preserves keeps_wf (load env type url cb name).
Proof.
  intros s o s' H.
  destruct (unsupported type) eqn:Hty.
  { unfold load in H. rewrite Hty in H. by inversion H; subst. }
  apply unsupported_false in Hty.
  destruct (find_id (resource_id env type url) (main_elements s))
    as [el|] eqn:Hfind.
  - destruct (truthy (dataset s !! (e_ref el, "loaded"))) eqn:Hm.
    + destruct (dataset s !! (e_ref el, "loaded")) as [v|] eqn:Hv;
        [|discriminate].
      simpl in Hm. apply negb_true_iff, bool_decide_eq_false in Hm.
      rewrite (load_loaded_eq env type url cb name el v s) in H by done.
      inversion H; subst. apply keeps_wf_same; by destruct cb.
    + rewrite (load_loading_eq env type url cb name el s) in H by done.
      inversion H; subst. apply keeps_wf_same; by destruct cb.
  - destruct (queryable env type name) eqn:Hq;
      [|rewrite load_absent_raises in H by done; inversion H; subst;
        apply keeps_wf_same; by destruct cb].
    rewrite load_absent_eq in H by done. inversion H; subst; clear H.
    destruct (subscribed_fields (resource_id env type url) cb s)
      as (Hdoc & _ & Hnext & _).
    eapply keeps_wf_fresh.
    + unfold main_elements, after_load_. simpl. apply doc_elements_insert.
    + simpl. by rewrite Hnext.
    + simpl. by rewrite Hnext.
Qed.

Lemma keeps_wf_exec o : preserves keeps_wf (exec env o).
Proof.
  destruct o; simpl.
  - apply preserves_bind; [apply _| |intros; apply preserves_ret; apply _].
    apply keeps_wf_load.
  - apply keeps_wf_unload.
  - apply keeps_wf_ignore.
  - apply keeps_wf_prefetch.
  - apply keeps_wf_el_onload.
  - apply keeps_wf_el_onreadystatechange.
  - apply keeps_wf_run_timer.
Qed.

Lemma wf_init : wf init.
Proof.
  split; [constructor|]. intros r Hr. by apply not_elem_of_nil in Hr.
Qed.

Lemma wf_run ops s : wf s → wf (run env ops s).
Proof.
  revert s. induction ops as [|o ops IH]; intros s Hwf; [done|].
  simpl. apply IH.
  destruct (exec env o s) as [out s1] eqn:He. simpl.
  by eapply keeps_wf_exec.
Qed.

(** The hypotheses [wf] and [allocated] of the theorems on named
    generations hold on every page that the operations can reach from the
    empty page. *)
Lemma reachable_wf ops : wf (run env ops init).
Proof. apply wf_run, wf_init. Qed.

End well_formed.

(** ** The scenarios, evaluated *)

Lemma allocated_intro s :
  Forall (λ r, r < next_ref s) (refs (main_elements s)) → allocated s.
Proof. intros H r Hr. by eapply Forall_forall in H. Qed.

(** C2, on the code.  In [stale_detached] the hook of [b.css] is queued,
    its marker is not set and the callback [7] waits under its id; its
    snapshot holds the element of [a.css], which has left the document.
    When the timer fires, the hook sets the marker, clears the topic of
    [a.css] and stops with a [TypeError] at the removal: nothing is
    published, the callback [7] is not invoked and stays subscribed, and a
    later run of the same hook finds the marker and does nothing. *)
Theorem completion_hook_stops_at_detached_node :
  let id := resource_id sample_host "css" "b.css" in
  let r := run_timer sample_host 0 stale_detached in
  subscriptions stale_detached !! id = Some [7] ∧
  dataset stale_detached !! (1, "loaded") = None ∧
  r.1 = TypeError ∧
  log_since stale_detached r.2 =
    [EvMarker 1 "loaded" "true";
     EvClear (resource_id sample_host "css" "a.css")] ∧
  dataset r.2 !! (1, "loaded") = Some "true" ∧
  subscriptions r.2 !! id = Some [7] ∧
  match timers stale_detached with
  | [THook h] =>
      h_id h = id ∧ e_ref (h_el h) = 1 ∧ refs (h_elsToRemove h) = [0] ∧
      completion h r.2 = (Normal tt, r.2)
  | _ => False
  end.
Proof. vm_compute. repeat split; reflexivity. Qed.

(** C3 does not hold as stated: in [two_generations] the load of [a.js]
    named [main] has completed, its marker is set, and two script elements
    carry the class [main]. *)
Lemma named_swap_counterexample :
  dataset two_generations !! (0, "loaded") = Some "true" ∧
  ¬ length (same_generation "script" "main" (main_elements two_generations))
    ≤ 1.
Proof.
  split; [vm_compute; reflexivity|].
  intros H. vm_compute in H. lia.
Qed.

(** C7 does not hold as stated: after the prefetch of a script and of a
    style the main document holds two hidden contexts, with two keys. *)
Lemma single_context_counterexample :
  e_id <$> contexts two_prefetches = ["js-prefetch"; "css-prefetch"] ∧
  ¬ length (contexts two_prefetches) ≤ 1.
Proof.
  split; [vm_compute; reflexivity|].
  intros H. vm_compute in H. lia.
Qed.

(** ** The theorems at concrete pages *)

Lemma at_most_one_element_witness :
  (∀ ops,
     count_id (resource_id sample_host "js" "a.js")
       (main_elements (run sample_host ops one_loaded)) ≤ 1) ∧
  (∀ el cb name,
     find_id (resource_id sample_host "js" "a.js") (main_elements one_loaded)
       = Some el →
     ∃ s',
       load sample_host "js" "a.js" cb name one_loaded
         = (Normal (Some el), s') ∧
       document s' = document one_loaded ∧ frames s' = frames one_loaded ∧
       next_ref s' = next_ref one_loaded ∧ onload s' = onload one_loaded ∧
       timers s' = timers one_loaded ∧
       ∃ l, log s' = log one_loaded ++ l ∧
            Forall (λ ev, is_dom_event ev = false) l).
Proof.
  apply (at_most_one_element sample_host "js" "a.js" one_loaded).
  - left. reflexivity.
  - vm_compute. constructor.
Defined.

Lemma named_swap_removes_the_snapshot_witness :
  let id := resource_id sample_host "js" "c.js" in
  let snap := same_generation (tag_of "js") "main" (main_elements one_loaded) in
  ∃ el s1,
    load sample_host "js" "c.js" (Some 3) (Some "main") one_loaded
      = (Normal (Some el), s1) ∧
    onload s1 !! e_ref el = Some (Some (Hook el id snap)) ∧
    ∀ s2,
      truthy (dataset s2 !! (e_ref el, "loaded")) = false →
      (∀ x, x ∈ snap → e_ref x ∈ refs (main_elements s2)) →
      ∃ s3,
        completion (Hook el id snap) s2 = (Normal tt, s3) ∧
        main_elements s3 =
          filter (λ x, e_ref x ∉ refs snap) (main_elements s2) ∧
        (∀ x, x ∈ snap → x ∉ main_elements s3) ∧
        (NoDup (main_elements s2) →
         (∀ x, x ∈ same_generation (tag_of "js") "main" (main_elements s2) →
               x = el ∨ x ∈ snap) →
         (∀ x, x ∈ same_generation (tag_of "js") "main" (main_elements s3) →
               x = el) ∧
         length (same_generation (tag_of "js") "main" (main_elements s3)) ≤ 1).
Proof.
  apply (named_swap_removes_the_snapshot sample_host "js" "c.js" (Some 3)
           "main" (class_match "script" ["main"]) one_loaded).
  - left. reflexivity.
  - discriminate.
  - split.
    + apply (bool_decide_unpack _). vm_compute. exact I.
    + apply allocated_intro. apply (bool_decide_unpack _). vm_compute.
      exact I.
  - vm_compute. reflexivity.
  - vm_compute. reflexivity.
  - intros d e. apply class_match_single.
Defined.

Lemma load_when_loaded_witness :
  load sample_host "js" "a.js" (Some 9) None one_loaded =
  (Normal (Some a_js), set_log (log one_loaded ++ [EvCall 9]) one_loaded).
Proof.
  apply (load_when_loaded sample_host "js" "a.js" (Some 9) None a_js "true"
           one_loaded).
  - left. reflexivity.
  - vm_compute. reflexivity.
  - vm_compute. reflexivity.
  - discriminate.
Defined.

Lemma unsupported_type_is_noop_witness :
  load sample_host "img" "a.png" (Some 1) (Some "main") one_loaded
    = (Normal None, one_loaded) ∧
  load_ sample_host "img" "a.png" "img-1" "main" None None one_loaded
    = (Normal None, one_loaded) ∧
  unload sample_host "img" "a.png" one_loaded = (Normal tt, one_loaded) ∧
  ignore sample_host "img" "a.png" one_loaded = (Normal tt, one_loaded) ∧
  prefetch sample_host "img" "a.png" one_loaded = (Normal tt, one_loaded).
Proof.
  apply (unsupported_type_is_noop sample_host "img" "a.png" (Some 1)
           (Some "main") "img-1" "main" None None one_loaded);
    discriminate.
Defined.

Lemma completion_is_deferred_witness :
  let f := λ el, Hook el "js-1" [] in
  let el := new_element (next_ref init) "js" "a.js" "js-1" "" in
  (∃ s1,
     load_ ie10_host "js" "a.js" "js-1" "" (Some f) None init
       = (Normal (Some el), s1) ∧
     onload s1 !! e_ref el = Some (Some (f el)) ∧
     dataset s1 = dataset init ∧ subscriptions s1 = subscriptions init ∧
     timers s1 =
       timers init ++
       (if sync_onload ie10_host "a.js" then [THook (f el)] else []) ∧
     log s1 =
       log init ++ [EvCreate (e_ref el) (tag_of "js");
                    EvLocator (e_ref el)
                      (if bool_decide ("js" = "js") then "src" else "href")
                      "a.js";
                    EvInsert (default MainDoc None) (e_ref el)]) ∧
  (∀ r h s2,
     onload s2 !! r = Some (Some h) →
     el_onload r s2 = (Normal tt, set_timers (timers s2 ++ [THook h]) s2) ∧
     el_onreadystatechange r "loaded" s2 = el_onload r s2 ∧
     el_onreadystatechange r "complete" s2 = el_onload r s2 ∧
     (∀ rs, rs ≠ "loaded" → rs ≠ "complete" →
            el_onreadystatechange r rs s2 = (Normal tt, s2))) ∧
  (∀ k h s2,
     timers s2 !! k = Some (THook h) →
     run_timer ie10_host k s2 =
     completion h (set_timers (delete k (timers s2)) s2)).
Proof.
  apply (completion_is_deferred ie10_host "js" "a.js" "js-1" ""
           (λ el, Hook el "js-1" []) None (document init) init).
  - left. reflexivity.
  - reflexivity.
Defined.

Lemma prefetch_uses_a_context_per_type_witness :
  prefetch sample_host "js" "c.js" one_loaded =
  (Normal tt,
   with_context "js" "c.js" (resource_id sample_host "js" "c.js") one_loaded).
Proof.
  apply (prefetch_uses_a_context_per_type sample_host "js" "c.js" one_loaded).
  - left. reflexivity.
  - vm_compute. reflexivity.
  - vm_compute. reflexivity.
Defined.


Lemma ignore_clears_only_the_topic_witness :
  EvCall 5 ∉
    log_since
      (State (document one_loaded) (frames one_loaded) (next_ref one_loaded)
             (dataset one_loaded)
             (delete (resource_id sample_host "js" "b.js")
                     (subscriptions one_loaded))
             (onload one_loaded) (timers one_loaded)
             (log one_loaded ++ [EvClear (resource_id sample_host "js" "b.js")]))
      (run sample_host [OpOnload 1; OpTimer 0]
         (State (document one_loaded) (frames one_loaded)
                (next_ref one_loaded) (dataset one_loaded)
                (delete (resource_id sample_host "js" "b.js")
                        (subscriptions one_loaded))
                (onload one_loaded) (timers one_loaded)
                (log one_loaded
                   ++ [EvClear (resource_id sample_host "js" "b.js")]))).
Proof.
  apply (ignore_clears_only_the_topic sample_host "js" "b.js" one_loaded).
  - left. reflexivity.
  - intros t Ht.
    destruct (decide (t = resource_id sample_host "js" "b.js"))
      as [->|Hne]; [done|].
    replace (subscriptions one_loaded)
      with ({[resource_id sample_host "js" "b.js" := [5]]}
              : gmap string (list callback))
      by (vm_compute; reflexivity).
    rewrite lookup_singleton_ne by done. apply not_elem_of_nil.
  - repeat constructor.
Defined.

Lemma snapshot_excludes_new_element_witness :
  let id := resource_id sample_host "js" "c.js" in
  let snap := matching (class_match "script" ["main"]) (document one_loaded) in
  query sample_host (tag_of "js" +:+ "." +:+ "main") one_loaded
    = (Normal snap, one_loaded) ∧
  (∀ x, x ∈ snap → x ∈ main_elements one_loaded) ∧
  ∃ el s1,
    load sample_host "js" "c.js" None (Some "main") one_loaded
      = (Normal (Some el), s1) ∧
    onload s1 !! e_ref el = Some (Some (Hook el id snap)) ∧
    tagName el = tag_of "js" ∧ className el = "main" ∧
    el ∈ main_elements s1 ∧
    (el ∉ snap) ∧ (e_ref el ∉ refs snap) ∧
    ∀ s2 o s3,
      el ∈ main_elements s2 →
      completion (Hook el id snap) s2 = (o, s3) →
      el ∈ main_elements s3.
Proof.
  apply (snapshot_excludes_new_element sample_host "js" "c.js" None "main"
           (class_match "script" ["main"]) one_loaded).
  - left. reflexivity.
  - discriminate.
  - apply allocated_intro. apply (bool_decide_unpack _). vm_compute. exact I.
  - vm_compute. reflexivity.
  - vm_compute. reflexivity.
Defined.

(** ** Identities *)

(** X1. For accepted types, two resources get the same id exactly when
    they have the same type and their URLs have the same hash: the id keeps
    the type and the hash apart, and it forgets everything else of the
    URL. *)
Theorem resource_id_eq_iff env type1 url1 type2 url2 :
  type1 = "js" ∨ type1 = "css" →
  type2 = "js" ∨ type2 = "css" →
  resource_id env type1 url1 = resource_id env type2 url2 ↔
  type1 = type2 ∧ hashCode env url1 = hashCode env url2.
Proof.
  unfold resource_id. intros [-> | ->] [-> | ->]; simpl; split;
    try (intros H; discriminate H); try (intros [H _]; discriminate H).
  - intros H. injection H as H. split; [done|]. by apply (inj pretty).
  - intros [_ ->]. done.
  - intros H. injection H as H. split; [done|]. by apply (inj pretty).
  - intros [_ ->]. done.
Qed.

Section more_on_load.

Context (env : host).

(** A [load] that finds an element with its id returns it and leaves the
    documents, the allocator, the handlers and the timers alone. *)
Lemma load_present type url cb name el s :
  type = "js" ∨ type = "css" →
  find_id (resource_id env type url) (main_elements s) = Some el →
  ∃ s',
    load env type url cb name s = (Normal (Some el), s') ∧
    document s' = document s ∧ frames s' = frames s ∧
    next_ref s' = next_ref s ∧ onload s' = onload s ∧
    timers s' = timers s ∧ dataset s' = dataset s.
Proof.
  intros Hty Hfind.
  destruct (truthy (dataset s !! (e_ref el, "loaded"))) eqn:Hm.
  - destruct (dataset s !! (e_ref el, "loaded")) as [v|] eqn:Hv;
      [|discriminate].
    simpl in Hm. apply negb_true_iff, bool_decide_eq_false in Hm.
    eexists. split; [by eapply load_loaded_eq|]. by destruct cb.
  - eexists. split; [by eapply load_loading_eq|]. by destruct cb.
Qed.

(** X2. When two URLs have the same hash, a [load] of the second on a page
    that holds the element of the first returns that element and creates
    nothing: the second URL is taken for the first. *)
Theorem colliding_urls_share_the_element type url1 url2 cb name el s :
  type = "js" ∨ type = "css" →
  hashCode env url1 = hashCode env url2 →
  find_id (resource_id env type url1) (main_elements s) = Some el →
  ∃ s',
    load env type url2 cb name s = (Normal (Some el), s') ∧
    document s' = document s ∧ frames s' = frames s ∧
    next_ref s' = next_ref s ∧ onload s' = onload s ∧
    timers s' = timers s ∧ dataset s' = dataset s.
Proof.
  intros Hty Hh Hfind. apply load_present; [done|].
  unfold resource_id in *. by rewrite <- Hh.
Qed.

(** X3. [unload] and [ignore] end normally for all arguments on every
    page, and so do the two handlers: [unload] hands [unload_] only the
    element that [getElementById] has just found in the document, so the
    removal has a parent to remove from.  [load] ends normally as well,
    except in one case: when it has to create the element and the engine
    does not take [tag + '.' + name] as a selector, it raises the
    [SyntaxError] of line 73, after the subscription of the callback and
    before anything is created. *)
Theorem public_calls_raise_only_at_the_selector type url cb name r rs s :
  (unsupported type = true ∨
   is_Some (find_id (resource_id env type url) (main_elements s)) ∨
   queryable env type name = true →
   ∃ a s', load env type url cb name s = (Normal a, s')) ∧
  (unsupported type = false →
   find_id (resource_id env type url) (main_elements s) = None →
   queryable env type name = false →
   load env type url cb name s =
   (SyntaxError, subscribed (resource_id env type url) cb s)) ∧
  (∃ s', unload env type url s = (Normal tt, s')) ∧
  (∃ s', ignore env type url s = (Normal tt, s')) ∧
  (∃ s', el_onload r s = (Normal tt, s')) ∧
  (∃ s', el_onreadystatechange r rs s = (Normal tt, s')).
Proof.
  assert (∃ s', el_onload r s = (Normal tt, s')) as Hon.
  { unfold el_onload, bind, gets.
    destruct (onload s !! r) as [[h|]|]; by eexists. }
  assert (∃ s', el_onreadystatechange r rs s = (Normal tt, s')) as Hrs.
  { unfold el_onreadystatechange.
    destruct (bool_decide (rs = "loaded") || bool_decide (rs = "complete"));
      [done|by eexists]. }
  destruct (unsupported type) eqn:Hu.
  { unfold load, unload, ignore. rewrite Hu.
    repeat split; try done; try (by eexists _, _); by eexists. }
  apply unsupported_false in Hu. split; [|split; [|split; [|split; [|split]]]].
  - intros [Hf|[[el Hfind]|Hq]]; [discriminate| |].
    + destruct (load_present type url cb name el s Hu Hfind) as (s' & H & _).
      by eexists _, _.
    + destruct (find_id (resource_id env type url) (main_elements s))
        as [el|] eqn:Hfind.
      * destruct (load_present type url cb name el s Hu Hfind)
          as (s' & H & _).
        by eexists _, _.
      * eexists _, _. by apply load_absent_eq.
  - intros _ Hfind Hq. by apply load_absent_raises.
  - unfold unload. rewrite (proj2 (unsupported_false type) Hu).
    unfold bind at 1, getElementById. simpl.
    destruct (find_id _ _) as [el|] eqn:Hfind; [|by eexists].
    apply find_id_Some in Hfind as [Hin _].
    exists (unloaded [el] s). apply (unload__attached [el] s).
    + apply NoDup_singleton.
    + intros x Hx. simpl in Hx. apply list_elem_of_singleton in Hx as ->.
      apply elem_of_refs. eauto.
  - unfold ignore. rewrite (proj2 (unsupported_false type) Hu). by eexists.
  - done.
  - done.
Qed.

(** X4. [prefetch] raises a [TypeError] and changes nothing when the main
    document has no element of the resource but has an element under the
    key of the context that has no content document: the code reads
    [iframeEl.contentWindow.document] of whatever carries the key. *)
Theorem prefetch_raises_on_foreign_context_key type url ifr s :
  type = "js" ∨ type = "css" →
  find_id (resource_id env type url) (main_elements s) = None →
  find_id (iframe_id type) (main_elements s) = Some ifr →
  frames s !! e_ref ifr = None →
  prefetch env type url s = (TypeError, s).
Proof.
  intros Hty Hnone Hifr Hfr. unfold prefetch.
  rewrite (proj2 (unsupported_false type) Hty).
  unfold main_elements in *.
  unfold bind at 1, getElementById. simpl. rewrite Hnone.
  unfold bind at 1. rewrite Hifr. unfold bind at 1. simpl. by rewrite Hfr.
Qed.

End more_on_load.

(** ** More on unloading and on the completion hook *)

Lemma log_unloaded els s :
  log (unloaded els s) = log s ++ removal_steps els.
Proof.
  revert s. induction els as [|e els IH]; intros s; simpl.
  - by rewrite app_nil_r.
  - rewrite IH. unfold removal_steps. simpl. by rewrite <- app_assoc.
Qed.

Lemma unloaded_topic_gone els s t :
  t ∈ e_id <$> els → subscriptions (unloaded els s) !! t = None.
Proof.
  revert s. induction els as [|e els IH]; intros s Hin.
  - by apply not_elem_of_nil in Hin.
  - simpl. destruct (decide (t ∈ e_id <$> els)) as [Hr|Hr]; [by apply IH|].
    rewrite unloaded_subscriptions by done. simpl.
    rewrite fmap_cons in Hin. apply elem_of_cons in Hin as [->|Hin]; [|done].
    apply lookup_delete_eq.
Qed.

Lemma removal_steps_quiet els :
  Forall (λ ev, is_call ev = false) (removal_steps els).
Proof.
  unfold removal_steps. induction els as [|e els IH]; [constructor|].
  rewrite bind_cons. by repeat constructor.
Qed.

(** X5. When the elements handed to [unload_] are distinct nodes of the
    main document, it ends normally; the document loses exactly these
    nodes, exactly the topics of their ids are dropped, the log shows for
    each element in turn its topic being cleared and then its node being
    removed, and nothing else changes. *)
Theorem unload__removes_exactly els s :
  NoDup (refs els) →
  (∀ r, r ∈ refs els → r ∈ refs (main_elements s)) →
  ∃ s',
    unload_ els s = (Normal tt, s') ∧
    main_elements s' = filter (λ x, e_ref x ∉ refs els) (main_elements s) ∧
    (∀ t, subscriptions s' !! t =
          if bool_decide (t ∈ e_id <$> els) then None
          else subscriptions s !! t) ∧
    log s' = log s ++ removal_steps els ∧
    frames s' = frames s ∧ next_ref s' = next_ref s ∧
    dataset s' = dataset s ∧ onload s' = onload s ∧ timers s' = timers s.
Proof.
  intros Hnd Hin. exists (unloaded els s).
  split; [by apply unload__attached|].
  split; [apply main_unloaded|].
  split.
  { intros t. case_bool_decide.
    - by apply unloaded_topic_gone.
    - by apply unloaded_subscriptions. }
  split; [apply log_unloaded|]. apply unloaded_fields.
Qed.

(** X6. When the first element handed to [unload_] is in no document,
    [unload_] clears the topic of its id and then raises a [TypeError] at
    [parentNode.removeChild]: the elements after it are neither cleared nor
    removed. *)
Theorem unload__raises_on_detached_node e rest s :
  e_ref e ∉ refs (main_elements s) →
  (∀ f d, frames s !! f = Some d → e_ref e ∉ refs (doc_elements d)) →
  unload_ (e :: rest) s =
  (TypeError,
   State (document s) (frames s) (next_ref s) (dataset s)
         (delete (e_id e) (subscriptions s)) (onload s) (timers s)
         (log s ++ [EvClear (e_id e)])).
Proof.
  intros Hmain Hfr. simpl. unfold bind at 1. rewrite clear_eq.
  unfold bind at 1. by rewrite removeChild_detached.
Qed.

Lemma completion_marked h s :
  truthy (dataset s !! (e_ref (h_el h), "loaded")) = true →
  completion h s = (Normal tt, s).
Proof.
  intros Hm. unfold completion, bind at 1, dataset_get, gets.
  by rewrite Hm.
Qed.

(** X7. The completion hook is idempotent: after one run of the hook,
    however that run ended, a second run ends normally and changes
    nothing. *)
Theorem completion_is_idempotent h s :
  completion h (completion h s).2 = (Normal tt, (completion h s).2).
Proof.
  destruct (truthy (dataset s !! (e_ref (h_el h), "loaded"))) eqn:Hm.
  - rewrite (completion_marked h s Hm). simpl. by apply completion_marked.
  - destruct (completion h s) as [o s'] eqn:Hc. simpl.
    apply completion_effect in Hc as (Hd & _); [|done].
    apply completion_marked. rewrite Hd. by rewrite lookup_insert_eq.
Qed.

(** X8. The first run of the hook on a page on which the elements of its
    snapshot are distinct nodes of the main document, none of them under
    the id of the hook, ends normally, and its steps are, in this order:
    the marker is set to ['true'], each element of the snapshot has its
    topic cleared and its node removed, the topic of the id is published,
    its subscribers are invoked once each in the order of their
    subscription, and the topic is cleared.  Afterwards the topic is
    empty. *)
Theorem completion_first_run_steps h s :
  truthy (dataset s !! (e_ref (h_el h), "loaded")) = false →
  NoDup (refs (h_elsToRemove h)) →
  (∀ r, r ∈ refs (h_elsToRemove h) → r ∈ refs (main_elements s)) →
  h_id h ∉ e_id <$> h_elsToRemove h →
  ∃ s',
    completion h s = (Normal tt, s') ∧
    log s' =
      log s ++ [EvMarker (e_ref (h_el h)) "loaded" "true"]
            ++ removal_steps (h_elsToRemove h)
            ++ [EvPublish (h_id h)]
            ++ (EvCall <$> default [] (subscriptions s !! h_id h))
            ++ [EvClear (h_id h)] ∧
    dataset s' = <[(e_ref (h_el h), "loaded") := "true"]> (dataset s) ∧
    subscriptions s' !! h_id h = None ∧
    main_elements s' =
      filter (λ x, e_ref x ∉ refs (h_elsToRemove h)) (main_elements s).
Proof.
  intros Hm Hnd Hin Hid. exists (completed h s).
  split; [by apply completion_first_run|].
  split; [|split; [|split]].
  - unfold completed. simpl. rewrite log_unloaded.
    rewrite unloaded_subscriptions by done. simpl.
    by rewrite <- !app_assoc.
  - unfold completed. simpl.
    by destruct (unloaded_fields (h_elsToRemove h) (marked (h_el h) s))
      as (_ & _ & -> & _).
  - unfold completed. simpl. apply lookup_delete_eq.
  - apply main_completed.
Qed.

Section superseded.

Context (env : host).

(** X9. After such a first run of the hook, no element of the snapshot is
    in the document and none has subscribers left under its id; so a
    callback that was waiting only for superseded resources is never
    invoked afterwards, unless a later [load] passes it again. *)
Theorem superseded_callbacks_are_dropped h s :
  truthy (dataset s !! (e_ref (h_el h), "loaded")) = false →
  NoDup (refs (h_elsToRemove h)) →
  (∀ r, r ∈ refs (h_elsToRemove h) → r ∈ refs (main_elements s)) →
  ∃ s',
    completion h s = (Normal tt, s') ∧
    (∀ e, e ∈ h_elsToRemove h →
          subscriptions s' !! e_id e = None ∧
          e_ref e ∉ refs (main_elements s')) ∧
    (∀ cb ops,
       (∀ t, cb ∈ default [] (subscriptions s !! t) →
             t ∈ e_id <$> h_elsToRemove h) →
       Forall (λ o, passes cb o = false) ops →
       EvCall cb ∉ log_since s' (run env ops s')).
Proof.
  intros Hm Hnd Hin. exists (completed h s).
  split; [by apply completion_first_run|].
  assert (∀ t, t ∈ e_id <$> h_elsToRemove h →
               subscriptions (completed h s) !! t = None) as Hgone.
  { intros t Ht. unfold completed. simpl.
    apply lookup_delete_None. right. by apply unloaded_topic_gone. }
  split.
  - intros e He. split.
    + apply Hgone. apply list_elem_of_fmap. eauto.
    + rewrite main_completed. intros (x & Hx & Hr)%elem_of_refs.
      apply list_elem_of_filter in Hx as [Hni _]. apply Hni.
      rewrite Hr. apply elem_of_refs. eauto.
  - intros cb ops Honly Hops.
    assert (unsubscribed cb (completed h s)) as Hun.
    { intros t Hcb.
      destruct (decide (t ∈ e_id <$> h_elsToRemove h)) as [Ht|Ht].
      - rewrite (Hgone t Ht) in Hcb. by apply not_elem_of_nil in Hcb.
      - apply Ht, Honly. unfold completed in Hcb. simpl in Hcb.
        destruct (decide (t = h_id h)) as [->|Hne].
        + rewrite lookup_delete_eq in Hcb. by apply not_elem_of_nil in Hcb.
        + rewrite lookup_delete_ne in Hcb by done.
          rewrite unloaded_subscriptions in Hcb by done. done. }
    destruct (spares_run env cb ops _ Hops Hun) as (_ & l & Hl & Hn).
    unfold log_since. rewrite Hl. by rewrite drop_app_length.
Qed.

(** X10. A [load] without a name, or with the empty name, that creates
    its element registers a hook with an empty snapshot; the first run of
    that hook cannot fail and leaves the documents as they are: it sets the
    marker, publishes the topic and clears it. *)
Theorem unnamed_load_completes type url cb name s :
  type = "js" ∨ type = "css" →
  default "" name = "" →
  find_id (resource_id env type url) (main_elements s) = None →
  let id := resource_id env type url in
  ∃ el s1,
    load env type url cb name s = (Normal (Some el), s1) ∧
    onload s1 !! e_ref el = Some (Some (Hook el id [])) ∧
    ∀ s2,
      truthy (dataset s2 !! (e_ref el, "loaded")) = false →
      ∃ s3,
        completion (Hook el id []) s2 = (Normal tt, s3) ∧
        document s3 = document s2 ∧ frames s3 = frames s2 ∧
        log s3 =
          log s2 ++ [EvMarker (e_ref el) "loaded" "true"; EvPublish id]
                 ++ (EvCall <$> default [] (subscriptions s2 !! id))
                 ++ [EvClear id].
Proof.
  intros Hty Hname Hfind id.
  assert (queryable env type name = true) as Hq
    by (unfold queryable; by rewrite bool_decide_eq_true_2).
  eexists _, _. split; [by apply load_absent_eq|].
  assert (snapshot env type name s = []) as ->
    by (unfold snapshot; by rewrite bool_decide_eq_true_2).
  destruct (subscribed_fields id cb s) as (_ & _ & Hnext & _).
  split.
  { unfold after_load_. simpl. fold id. rewrite Hnext. rewrite Hname.
    apply lookup_insert_eq. }
  intros s2 Hm. eexists. split.
  { apply completion_first_run; simpl; [done|constructor|].
    intros r Hr. by apply not_elem_of_nil in Hr. }
  unfold completed. simpl. repeat split; try done.
  by rewrite <- !app_assoc.
Qed.

End superseded.

(** ** Sequences of calls *)

Lemma find_id_nil id l : find_id id l = None → filter (λ e, e_id e = id) l = [].
Proof. unfold find_id. by destruct (filter _ l). Qed.

Lemma find_id_insert front e d id :
  e_id e = id → find_id id (doc_elements d) = None →
  find_id id (doc_elements (target_insert front e d)) = Some e.
Proof.
  intros He Hnone. apply find_id_nil in Hnone. unfold find_id.
  assert (filter (λ x, e_id x = id) (doc_elements (target_insert front e d))
          ≡ₚ [e]) as Hp.
  { rewrite doc_elements_insert. rewrite filter_cons_True by done.
    by rewrite Hnone. }
  apply Permutation_singleton_r in Hp. by rewrite Hp.
Qed.

Lemma find_id_insert_ne front e d id :
  e_id e ≠ id →
  find_id id (doc_elements (target_insert front e d)) =
  find_id id (doc_elements d).
Proof.
  intros He. unfold find_id, doc_elements, target_insert.
  destruct (d_head d) as [h|], front; simpl;
    rewrite ?filter_app, ?filter_cons_False, ?filter_app, ?filter_nil,
      ?app_nil_r by done;
    done.
Qed.

Lemma find_id_elem id l e :
  e ∈ l → e_id e = id → is_Some (find_id id l).
Proof.
  intros Hin He. unfold find_id.
  assert (e ∈ filter (λ x, e_id x = id) l) as Hf
    by (by apply list_elem_of_filter).
  destruct (filter _ l); [by apply not_elem_of_nil in Hf|by eexists].
Qed.

Lemma count_id_remove id l el :
  el ∈ l → e_id el = id → count_id id l ≤ 1 →
  count_id id (remove_ref (e_ref el) l) = 0.
Proof.
  intros Hin He Hone.
  assert (count_id id (remove_ref (e_ref el) l) < count_id id l); [|lia].
  unfold count_id, remove_ref. rewrite list_filter_filter.
  rewrite <- (list_filter_filter_l (λ e, e_id e = id ∧ e_ref e ≠ e_ref el)
                (λ e, e_id e = id)) by (by intros ? [? ?]).
  apply (length_filter_lt _ _ el).
  - by apply list_elem_of_filter.
  - by intros [_ ?].
Qed.

Section sequences.

Context (env : host).

(** X11. Two calls of [load] for a resource that is not in the document,
    each with a callback and without a name: the first creates the element,
    the second finds it and only subscribes, so the document holds one
    element with the id; and when the hook of the element runs, the
    subscribers that the topic already had and then the two callbacks are
    invoked once each, in this order, and the topic is cleared. *)
Theorem two_loads_one_completion type url cb1 cb2 s :
  type = "js" ∨ type = "css" →
  find_id (resource_id env type url) (main_elements s) = None →
  truthy (dataset s !! (next_ref s, "loaded")) = false →
  let id := resource_id env type url in
  ∃ el s1 s2 s3,
    load env type url (Some cb1) None s = (Normal (Some el), s1) ∧
    load env type url (Some cb2) None s1 = (Normal (Some el), s2) ∧
    next_ref s2 = S (next_ref s) ∧
    document s2 = document s1 ∧
    count_id id (main_elements s2) = 1 ∧
    onload s2 !! e_ref el = Some (Some (Hook el id [])) ∧
    completion (Hook el id []) s2 = (Normal tt, s3) ∧
    log s3 =
      log s2 ++ [EvMarker (e_ref el) "loaded" "true"; EvPublish id]
             ++ (EvCall <$> default [] (subscriptions s !! id) ++ [cb1; cb2])
             ++ [EvClear id].
Proof.
  intros Hty Hnone Hfresh id.
  set (el := new_element (next_ref s) type url id "").
  set (s1 := after_load_ env type url id ""
               (Some (λ el, Hook el id [])) MainDoc (document s)
               (subscribed id (Some cb1) s)).
  assert (load env type url (Some cb1) None s = (Normal (Some el), s1)) as H1
    by (by rewrite load_absent_eq).
  assert (find_id id (main_elements s1) = Some el) as Hfound.
  { unfold s1, main_elements, after_load_. simpl.
    by apply find_id_insert. }
  assert (truthy (dataset s1 !! (e_ref el, "loaded")) = false) as Hm1
    by done.
  exists el, s1, (subscribed id (Some cb2) s1),
         (completed (Hook el id []) (subscribed id (Some cb2) s1)).
  split; [done|].
  split; [by apply load_loading_eq|].
  split; [done|]. split; [done|].
  split.
  { unfold main_elements, s1, after_load_. simpl.
    rewrite (count_id_perm _ _ _ (doc_elements_insert _ _ _)).
    rewrite count_id_cons. simpl. rewrite decide_True by done.
    apply find_id_None in Hnone. unfold main_elements in Hnone.
    fold id in Hnone. by rewrite Hnone. }
  split.
  { simpl. apply lookup_insert_eq. }
  split.
  { apply completion_first_run; simpl; [done|constructor|].
    intros r Hr. by apply not_elem_of_nil in Hr. }
  unfold completed. simpl. rewrite !lookup_insert_eq. simpl.
  by rewrite <- !app_assoc.
Qed.

(** X12. On a page that has one element with the id of a resource,
    [unload] followed by [load] creates the element anew: after the
    [unload] no element has the id, and the [load], given no name or a
    name with which the engine takes the selector of line 73, takes the
    creating path and inserts a node that was not in the document before,
    so that one element has the id again. *)
Theorem unload_then_load_creates_anew type url cb name el s :
  type = "js" ∨ type = "css" →
  find_id (resource_id env type url) (main_elements s) = Some el →
  count_id (resource_id env type url) (main_elements s) ≤ 1 →
  allocated s →
  queryable env type name = true →
  let id := resource_id env type url in
  ∃ s1 el' s2,
    unload env type url s = (Normal tt, s1) ∧
    find_id id (main_elements s1) = None ∧
    load env type url cb name s1 = (Normal (Some el'), s2) ∧
    e_ref el' = next_ref s ∧
    (e_ref el' ∉ refs (main_elements s)) ∧
    el' ∈ main_elements s2 ∧
    count_id id (main_elements s2) = 1.
Proof.
  intros Hty Hfind Hone Hal Hq id.
  pose proof (find_id_Some _ _ _ Hfind) as [Hin Hid].
  assert (unload env type url s = (Normal tt, unloaded [el] s)) as Hun.
  { unfold unload. rewrite (proj2 (unsupported_false type) Hty).
    unfold bind at 1, getElementById. simpl.
    unfold main_elements in Hfind. rewrite Hfind.
    apply (unload__attached [el] s); [apply NoDup_singleton|].
    intros r Hr. simpl in Hr. apply list_elem_of_singleton in Hr as ->.
    apply elem_of_refs. eauto. }
  assert (main_elements (unloaded [el] s)
          = remove_ref (e_ref el) (main_elements s)) as Hmain.
  { unfold main_elements. simpl. apply doc_elements_remove. }
  assert (find_id id (main_elements (unloaded [el] s)) = None) as Hnone.
  { apply find_id_None. rewrite Hmain. by apply count_id_remove. }
  eexists _, _, _. split; [exact Hun|]. split; [exact Hnone|].
  split; [by apply load_absent_eq|].
  destruct (subscribed_fields id cb (unloaded [el] s))
    as (Hdoc & _ & Hnext & _).
  split; [done|]. split; [|split].
  - simpl. intros Hr. apply Hal in Hr. lia.
  - pose proof (new_element_in_main env type url id (default "" name)
                  (Some (λ e, Hook e id
                                (snapshot env type name (unloaded [el] s))))
                  (document (unloaded [el] s))
                  (subscribed id cb (unloaded [el] s))) as Hel.
    rewrite Hnext in Hel. exact Hel.
  - unfold main_elements, after_load_. simpl.
    rewrite (count_id_perm _ _ _ (doc_elements_insert _ _ _)).
    rewrite count_id_cons. simpl. rewrite decide_True by done.
    apply find_id_None in Hnone. unfold main_elements in Hnone.
    simpl in Hnone. by rewrite Hnone.
Qed.

(** X13. When [unload] finds the element of the resource, the callbacks
    that wait for it are dropped with it: a callback subscribed under no
    other topic is never invoked afterwards, whatever events and timers
    follow, unless a later [load] passes it again. *)
Theorem unload_drops_pending_callbacks type url el cb ops s :
  type = "js" ∨ type = "css" →
  find_id (resource_id env type url) (main_elements s) = Some el →
  (∀ t, t ≠ resource_id env type url →
        cb ∉ default [] (subscriptions s !! t)) →
  Forall (λ o, passes cb o = false) ops →
  (unload env type url s).1 = Normal tt ∧
  EvCall cb ∉ log_since (unload env type url s).2
                (run env ops (unload env type url s).2).
Proof.
  intros Hty Hfind Hother Hops.
  pose proof (find_id_Some _ _ _ Hfind) as [Hin Hid].
  assert (unload env type url s = (Normal tt, unloaded [el] s)) as ->.
  { unfold unload. rewrite (proj2 (unsupported_false type) Hty).
    unfold bind at 1, getElementById. simpl.
    unfold main_elements in Hfind. rewrite Hfind.
    apply (unload__attached [el] s); [apply NoDup_singleton|].
    intros r Hr. simpl in Hr. apply list_elem_of_singleton in Hr as ->.
    apply elem_of_refs. eauto. }
  split; [done|]. simpl.
  set (s' := State _ _ _ _ _ _ _ _).
  assert (unsubscribed cb s') as Hun.
  { intros t. unfold s'. simpl. rewrite Hid.
    destruct (decide (t = resource_id env type url)) as [->|Hne].
    - rewrite lookup_delete_eq. apply not_elem_of_nil.
    - rewrite lookup_delete_ne by done. by apply Hother. }
  destruct (spares_run env cb ops s' Hops Hun) as (_ & l & Hl & Hn).
  unfold log_since. rewrite Hl. by rewrite drop_app_length.
Qed.

(** X14. Two resources of one type with different ids, neither in the
    document, are loaded one after the other.  Scripts go to the front of
    the target, so the second script ends up before the first; styles go
    to the end of the target, so they stay in the order of the calls after
    everything the target held.  The target is the head when the document
    has one, and the body otherwise.  Each call has no name, or a name
    with which the engine takes the selector of line 73. *)
Theorem scripts_go_first_styles_go_last type url1 url2 cb1 cb2 n1 n2 s :
  type = "js" ∨ type = "css" →
  resource_id env type url1 ≠ resource_id env type url2 →
  find_id (resource_id env type url1) (main_elements s) = None →
  find_id (resource_id env type url2) (main_elements s) = None →
  queryable env type n1 = true →
  queryable env type n2 = true →
  ∃ e1 s1 e2 s2,
    load env type url1 cb1 n1 s = (Normal (Some e1), s1) ∧
    load env type url2 cb2 n2 s1 = (Normal (Some e2), s2) ∧
    src e1 = (if bool_decide (type = "js") then url1 else "") ∧
    href e1 = (if bool_decide (type = "js") then "" else url1) ∧
    src e2 = (if bool_decide (type = "js") then url2 else "") ∧
    href e2 = (if bool_decide (type = "js") then "" else url2) ∧
    target_children (document s2) =
      (if bool_decide (type = "js")
       then e2 :: e1 :: target_children (document s)
       else target_children (document s) ++ [e1; e2]) ∧
    (is_Some (d_head (document s2)) ↔ is_Some (d_head (document s))).
Proof.
  intros Hty Hne Hn1 Hn2 Hq1 Hq2.
  eexists _, _, _, _. split; [by apply load_absent_eq|].
  split.
  { apply load_absent_eq; [done| |done].
    unfold main_elements, after_load_. simpl.
    rewrite find_id_insert_ne by done. exact Hn2. }
  unfold after_load_, target_children, target_insert.
  destruct Hty as [-> | ->];
    destruct cb1, cb2, (d_head (document s)) as [h|]; simpl;
    repeat split; try done; try (by rewrite <- app_assoc);
    by intros [? ?].
Qed.

(** X15. [load] invokes a callback itself only when it finds the element
    with a truthy marker: when there is no element with the id, or the one
    there has no truthy marker, or the type is not accepted, nothing that
    [load] logs is an invocation. *)
Theorem load_invokes_only_when_loaded type url cb name s :
  (∀ el, find_id (resource_id env type url) (main_elements s) = Some el →
         truthy (dataset s !! (e_ref el, "loaded")) = false) →
  ∃ l, log (load env type url cb name s).2 = log s ++ l ∧
       Forall (λ ev, is_call ev = false) l.
Proof.
  intros Hm.
  destruct (unsupported type) eqn:Hu.
  { unfold load. rewrite Hu. exists []. simpl.
    split; [by rewrite app_nil_r|constructor]. }
  apply unsupported_false in Hu.
  destruct (find_id (resource_id env type url) (main_elements s))
    as [el|] eqn:Hfind.
  - rewrite (load_loading_eq env type url cb name el s) by auto.
    destruct cb as [c|]; simpl.
    + eexists. split; [done|]. by repeat constructor.
    + exists []. split; [by rewrite app_nil_r|constructor].
  - destruct (queryable env type name) eqn:Hq.
    + rewrite load_absent_eq by done. unfold after_load_. simpl.
      destruct cb as [c|]; simpl.
      * eexists. split; [by rewrite <- app_assoc|]. by repeat constructor.
      * eexists. split; [done|]. by repeat constructor.
    + rewrite load_absent_raises by done.
      destruct cb as [c|]; simpl.
      * eexists. split; [done|]. by repeat constructor.
      * exists []. split; [by rewrite app_nil_r|constructor].
Qed.

Lemma exec_no_more id o :
  (∀ type, unsupported type = false → iframe_id type ≠ id) →
  is_load o = false → preserves (no_more id) (exec env o).
Proof.
  intros Hid Hl. destruct o; simpl; try discriminate.
  - by apply no_more_unload.
  - by apply no_more_ignore.
  - by apply no_more_prefetch.
  - by apply no_more_el_onload.
  - by apply no_more_el_onreadystatechange.
  - by apply no_more_run_timer.
Qed.

(** X16. Only [load] brings an element with the id of a resource into the
    main document: over any sequence of [prefetch], [unload] and [ignore]
    calls, events and timers, the number of elements with that id does not
    grow.  So a resource that was only prefetched is still absent from the
    main document, and a [load] of it will create its element. *)
Theorem only_load_adds_resource_elements type url ops s :
  type = "js" ∨ type = "css" →
  Forall (λ o, is_load o = false) ops →
  count_id (resource_id env type url) (main_elements (run env ops s)) ≤
  count_id (resource_id env type url) (main_elements s).
Proof.
  intros Hty Hops. revert s.
  induction Hops as [|o ops Ho _ IH]; intros s; [done|].
  simpl. etrans; [apply IH|].
  destruct (exec env o s) as [out s1] eqn:He. simpl.
  eapply (exec_no_more (resource_id env type url) o); [|done|done].
  intros type' Hty'. apply resource_id_not_iframe_id; [done|].
  by apply unsupported_false.
Qed.

End sequences.

(** ** More on prefetching *)

Section more_on_prefetch.

Context (env : host).

Lemma prefetch_creates type url s :
  type = "js" ∨ type = "css" →
  find_id (resource_id env type url) (main_elements s) = None →
  find_id (iframe_id type) (main_elements s) = None →
  prefetch env type url s =
  (Normal tt, with_context type url (resource_id env type url) s).
Proof.
  intros Hty Hnone Hifr. unfold main_elements in *. unfold prefetch.
  rewrite (proj2 (unsupported_false type) Hty).
  unfold bind at 1, getElementById. simpl. rewrite Hnone.
  unfold bind at 1. by rewrite Hifr.
Qed.

Lemma prefetch_in_context type url ifr d s :
  type = "js" ∨ type = "css" →
  find_id (resource_id env type url) (main_elements s) = None →
  find_id (iframe_id type) (main_elements s) = Some ifr →
  frames s !! e_ref ifr = Some d →
  prefetch env type url s =
  (Normal tt,
   match find_id (resource_id env type url) (doc_elements d) with
   | Some _ => s
   | None =>
       set_timers
         (timers s ++ [TPrefetch type url (resource_id env type url) ifr]) s
   end).
Proof.
  intros Hty Hnone Hifr Hd. unfold main_elements in *. unfold prefetch.
  rewrite (proj2 (unsupported_false type) Hty).
  unfold bind at 1, getElementById. simpl. rewrite Hnone.
  unfold bind at 1. rewrite Hifr. unfold bind at 1. simpl. rewrite Hd.
  by destruct (find_id _ (doc_elements d)).
Qed.

(** X17. On a page that has neither the element of the resource nor the
    context of its type, [prefetch] creates the context and queues the
    fetch.  A second [prefetch] of the same resource before the timer has
    fired finds the context empty and queues the fetch once more; once the
    queued function has run, a further [prefetch] finds the element in the
    context and does nothing. *)
Theorem prefetch_dedups_after_the_deferred_run type url s :
  type = "js" ∨ type = "css" →
  find_id (resource_id env type url) (main_elements s) = None →
  find_id (iframe_id type) (main_elements s) = None →
  let id := resource_id env type url in
  let iframeEl := Element (next_ref s) "iframe" (iframe_id type)
                          "" "" "" "" "" in
  let s1 := with_context type url id s in
  prefetch env type url s = (Normal tt, s1) ∧
  prefetch env type url s1 =
    (Normal tt,
     set_timers (timers s1 ++ [TPrefetch type url id iframeEl]) s1) ∧
  ∃ s2,
    run_timer env (length (timers s)) s1 = (Normal tt, s2) ∧
    timers s2 = timers s ∧
    prefetch env type url s2 = (Normal tt, s2).
Proof.
  intros Hty Hnone Hifr id iframeEl s1. subst id.
  set (id := resource_id env type url) in *.
  assert (iframe_id type ≠ id) as Hne.
  { apply resource_id_not_iframe_id; done. }
  assert (main_elements s1 = main_elements s ++ [iframeEl]) as Hmain.
  { unfold main_elements, doc_elements. simpl. by rewrite app_assoc. }
  assert (find_id id (main_elements s1) = None) as Hnone1.
  { rewrite Hmain. unfold find_id. rewrite filter_app.
    rewrite (find_id_nil _ _ Hnone). simpl.
    by rewrite filter_cons_False, filter_nil. }
  assert (find_id (iframe_id type) (main_elements s1) = Some iframeEl)
    as Hifr1.
  { rewrite Hmain. unfold find_id. rewrite filter_app.
    rewrite (find_id_nil _ _ Hifr). simpl.
    by rewrite filter_cons_True, filter_nil. }
  assert (frames s1 !! e_ref iframeEl = Some (Doc (Some []) [])) as Hfr1
    by apply lookup_insert_eq.
  split; [by apply prefetch_creates|].
  split.
  { by rewrite (prefetch_in_context type url iframeEl (Doc (Some []) []) s1). }
  unfold run_timer.
  assert (timers s1 !! length (timers s)
          = Some (TPrefetch type url id iframeEl)) as ->
    by (by apply list_lookup_middle).
  simpl.
  rewrite delete_middle, app_nil_r.
  destruct (prefetch_deferred_effect env type url id iframeEl
              (Doc (Some []) []) (set_timers (timers s) s1) Hty Hfr1)
    as (s2 & Hrun & Hdoc & _ & _ & Ht & (d' & e & Hd' & He & Hid & _) & _).
  exists s2. split; [exact Hrun|]. split; [exact Ht|].
  assert (main_elements s2 = main_elements s1) as Hmain2
    by (unfold main_elements; by rewrite Hdoc).
  rewrite (prefetch_in_context type url iframeEl d' s2);
    [|done|by rewrite Hmain2|by rewrite Hmain2|done].
  destruct (find_id_elem id (doc_elements d') e He Hid) as [x Hx].
  unfold id in Hx. by rewrite Hx.
Qed.

End more_on_prefetch.

(** ** The marker *)

Section markers.

Context (env : host).

Global Instance keeps_markers_preorder : PreOrder keeps_markers.
Proof.
  split.
  - by intros s k Hk.
  - intros s1 s2 s3 H12 H23 k Hk.
    rewrite <- (H12 k Hk). apply H23. by rewrite (H12 k Hk).
Qed.

Lemma keeps_markers_same s s' : dataset s' = dataset s → keeps_markers s s'.
Proof. intros H k _. by rewrite H. Qed.

Lemma keeps_markers_emit ev : preserves keeps_markers (emit ev).
Proof. intros s o s' H. inversion H; subst. by apply keeps_markers_same. Qed.

Lemma keeps_markers_subscribe t c : preserves keeps_markers (subscribe t c).
Proof. intros s o s' H. inversion H; subst. by apply keeps_markers_same. Qed.

Lemma keeps_markers_clear t : preserves keeps_markers (clear t).
Proof. intros s o s' H. inversion H; subst. by apply keeps_markers_same. Qed.

Lemma keeps_markers_publish t : preserves keeps_markers (publish t).
Proof.
  intros s o s' H. rewrite publish_eq in H. inversion H; subst.
  by apply keeps_markers_same.
Qed.

Lemma keeps_markers_setTimeout t : preserves keeps_markers (setTimeout t).
Proof. intros s o s' H. inversion H; subst. by apply keeps_markers_same. Qed.

Lemma keeps_markers_createElement tag :
  preserves keeps_markers (createElement tag).
Proof. intros s o s' H. inversion H; subst. by apply keeps_markers_same. Qed.

Lemma keeps_markers_createIframe i : preserves keeps_markers (createIframe i).
Proof. intros s o s' H. inversion H; subst. by apply keeps_markers_same. Qed.

Lemma keeps_markers_modify_onload f :
  preserves keeps_markers (modify (λ s, set_onload (f s) s)).
Proof. intros s o s' H. inversion H; subst. by apply keeps_markers_same. Qed.

Lemma keeps_markers_insert_target front e d :
  preserves keeps_markers (insert_target front e d).
Proof.
  intros s o s' H. unfold insert_target in H.
  destruct (lookup_doc d s); inversion H; subst; [|reflexivity].
  destruct d; by apply keeps_markers_same.
Qed.

Lemma keeps_markers_body_append e d :
  preserves keeps_markers (body_append e d).
Proof.
  intros s o s' H. unfold body_append in H.
  destruct (lookup_doc d s); inversion H; subst; [|reflexivity].
  destruct d; by apply keeps_markers_same.
Qed.

Lemma keeps_markers_removeChild e :
  preserves keeps_markers (removeChild_of_parent e).
Proof.
  intros s o s' H. apply removeChild_effect in H as (_ & Hd & _).
  by apply keeps_markers_same.
Qed.

Lemma keeps_markers_completion h : preserves keeps_markers (completion h).
Proof.
  intros s o s' H.
  destruct (truthy (dataset s !! (e_ref (h_el h), "loaded"))) eqn:Hm.
  - rewrite completion_marked in H by done. inversion H; subst. reflexivity.
  - apply completion_effect in H as (Hd & _); [|done].
    intros k Hk. rewrite Hd. apply lookup_insert_ne.
    intros <-. congruence.
Qed.

Hint Resolve keeps_markers_emit keeps_markers_subscribe keeps_markers_clear
  keeps_markers_publish keeps_markers_setTimeout keeps_markers_createElement
  keeps_markers_createIframe keeps_markers_modify_onload
  keeps_markers_insert_target keeps_markers_body_append
  keeps_markers_removeChild keeps_markers_completion : pres.

Lemma keeps_markers_el_onload r : preserves keeps_markers (el_onload r).
Proof. unfold el_onload. pres. Qed.

Lemma keeps_markers_el_onreadystatechange r rs :
  preserves keeps_markers (el_onreadystatechange r rs).
Proof.
  unfold el_onreadystatechange. pres; apply keeps_markers_el_onload.
Qed.

Lemma keeps_markers_unload_ els : preserves keeps_markers (unload_ els).
Proof. induction els; simpl; pres. Qed.

Hint Resolve keeps_markers_el_onload keeps_markers_unload_ : pres.

Lemma keeps_markers_load_ type url i cls fn d :
  preserves keeps_markers (load_ env type url i cls fn d).
Proof. unfold load_. pres. Qed.

Hint Resolve keeps_markers_load_ : pres.

Lemma keeps_markers_load type url cb name :
  preserves keeps_markers (load env type url cb name).
Proof. unfold load, dataset_get, call. pres. Qed.

Lemma keeps_markers_unload type url :
  preserves keeps_markers (unload env type url).
Proof. unfold unload. pres. Qed.

Lemma keeps_markers_ignore type url :
  preserves keeps_markers (ignore env type url).
Proof. unfold ignore. pres. Qed.

Lemma keeps_markers_prefetch type url :
  preserves keeps_markers (prefetch env type url).
Proof. unfold prefetch. pres. Qed.

Lemma keeps_markers_prefetch_deferred type url i ifr :
  preserves keeps_markers (prefetch_deferred env type url i ifr).
Proof. unfold prefetch_deferred. pres. Qed.

Lemma keeps_markers_run_timer k : preserves keeps_markers (run_timer env k).
Proof.
  intros s o s' H. unfold run_timer in H.
  destruct (timers s !! k) as [t|]; [|inversion H; subst; reflexivity].
  trans (set_timers (delete k (timers s)) s);
    [by apply keeps_markers_same|].
  destruct t; simpl in H.
  - by eapply keeps_markers_completion.
  - by eapply keeps_markers_prefetch_deferred.
Qed.

Lemma keeps_markers_exec o : preserves keeps_markers (exec env o).
Proof.
  destruct o; simpl.
  - apply preserves_bind; [apply _| |intros; apply preserves_ret; apply _].
    apply keeps_markers_load.
  - apply keeps_markers_unload.
  - apply keeps_markers_ignore.
  - apply keeps_markers_prefetch.
  - apply keeps_markers_el_onload.
  - apply keeps_markers_el_onreadystatechange.
  - apply keeps_markers_run_timer.
Qed.

(** X18. A marker is never taken back: once the dataset holds a truthy
    value under a key, no sequence of calls, events and timers changes that
    value.  In particular [unload] does not reset the marker of the node it
    removes; the code only ever writes ['true'], and only where it found no
    truthy value. *)
Theorem truthy_markers_are_permanent ops k s :
  truthy (dataset s !! k) = true →
  dataset (run env ops s) !! k = dataset s !! k.
Proof.
  revert s. induction ops as [|o ops IH]; intros s Hk; [done|].
  simpl. destruct (exec env o s) as [out s1] eqn:He. simpl.
  pose proof (keeps_markers_exec o s out s1 He k Hk) as H1.
  rewrite <- H1. apply IH. by rewrite H1.
Qed.

End markers.

(** ** These properties at concrete pages *)

Lemma resource_id_eq_iff_witness :
  resource_id sample_host "js" "Aa" = resource_id sample_host "js" "BB" ↔
  "js" = "js" ∧ hashCode sample_host "Aa" = hashCode sample_host "BB".
Proof.
  apply (resource_id_eq_iff sample_host "js" "Aa" "js" "BB");
    left; reflexivity.
Defined.

Lemma colliding_urls_share_the_element_witness :
  ∃ s',
    load sample_host "js" "BB" (Some 1) None collision_page
      = (Normal (Some aa_js), s') ∧
    document s' = document collision_page ∧
    frames s' = frames collision_page ∧
    next_ref s' = next_ref collision_page ∧
    onload s' = onload collision_page ∧
    timers s' = timers collision_page ∧
    dataset s' = dataset collision_page.
Proof.
  apply (colliding_urls_share_the_element sample_host "js" "Aa" "BB" (Some 1)
           None aa_js collision_page).
  - left. reflexivity.
  - vm_compute. reflexivity.
  - vm_compute. reflexivity.
Defined.

Lemma public_calls_raise_only_at_the_selector_witness :
  (∃ a s', load sample_host "js" "a.js" (Some 1) (Some "main") init
           = (Normal a, s')) ∧
  load sample_host "js" "a.js" (Some 1) (Some "1x") init
  = (SyntaxError,
     subscribed (resource_id sample_host "js" "a.js") (Some 1) init).
Proof.
  split.
  - apply (proj1 (public_calls_raise_only_at_the_selector sample_host
                    "js" "a.js" (Some 1) (Some "main") 0 "" init)).
    right. right. vm_compute. reflexivity.
  - apply (proj1 (proj2 (public_calls_raise_only_at_the_selector sample_host
                           "js" "a.js" (Some 1) (Some "1x") 0 "" init))).
    + vm_compute. reflexivity.
    + vm_compute. reflexivity.
    + vm_compute. reflexivity.
Defined.

Lemma prefetch_raises_on_foreign_context_key_witness :
  prefetch sample_host "js" "a.js" foreign_key_page
    = (TypeError, foreign_key_page).
Proof.
  apply (prefetch_raises_on_foreign_context_key sample_host "js" "a.js"
           foreign_div foreign_key_page).
  - left. reflexivity.
  - vm_compute. reflexivity.
  - vm_compute. reflexivity.
  - vm_compute. reflexivity.
Defined.

Lemma unload__removes_exactly_witness :
  ∃ s',
    unload_ [a_js] one_loaded = (Normal tt, s') ∧
    main_elements s' =
      filter (λ x, e_ref x ∉ refs [a_js]) (main_elements one_loaded) ∧
    (∀ t, subscriptions s' !! t =
          if bool_decide (t ∈ e_id <$> [a_js]) then None
          else subscriptions one_loaded !! t) ∧
    log s' = log one_loaded ++ removal_steps [a_js] ∧
    frames s' = frames one_loaded ∧ next_ref s' = next_ref one_loaded ∧
    dataset s' = dataset one_loaded ∧ onload s' = onload one_loaded ∧
    timers s' = timers one_loaded.
Proof.
  apply (unload__removes_exactly [a_js] one_loaded).
  - apply (bool_decide_unpack _). vm_compute. exact I.
  - apply Forall_forall. apply (bool_decide_unpack _). vm_compute. exact I.
Defined.

Lemma unload__raises_on_detached_node_witness :
  unload_ [a_css] stale_detached =
  (TypeError,
   State (document stale_detached) (frames stale_detached)
         (next_ref stale_detached) (dataset stale_detached)
         (delete (e_id a_css) (subscriptions stale_detached))
         (onload stale_detached) (timers stale_detached)
         (log stale_detached ++ [EvClear (e_id a_css)])).
Proof.
  apply (unload__raises_on_detached_node a_css [] stale_detached).
  - apply (bool_decide_unpack _). vm_compute. exact I.
  - intros f d.
    replace (frames stale_detached) with (∅ : gmap nat doc)
      by (vm_compute; reflexivity).
    rewrite lookup_empty. discriminate.
Defined.

Lemma completion_first_run_steps_witness :
  ∃ s',
    completion c_hook swap_pending = (Normal tt, s') ∧
    log s' =
      log swap_pending ++ [EvMarker (e_ref (h_el c_hook)) "loaded" "true"]
            ++ removal_steps (h_elsToRemove c_hook)
            ++ [EvPublish (h_id c_hook)]
            ++ (EvCall <$> default [] (subscriptions swap_pending
                                         !! h_id c_hook))
            ++ [EvClear (h_id c_hook)] ∧
    dataset s' =
      <[(e_ref (h_el c_hook), "loaded") := "true"]> (dataset swap_pending) ∧
    subscriptions s' !! h_id c_hook = None ∧
    main_elements s' =
      filter (λ x, e_ref x ∉ refs (h_elsToRemove c_hook))
             (main_elements swap_pending).
Proof.
  apply (completion_first_run_steps c_hook swap_pending).
  - vm_compute. reflexivity.
  - apply (bool_decide_unpack _). vm_compute. exact I.
  - apply Forall_forall. apply (bool_decide_unpack _). vm_compute. exact I.
  - apply (bool_decide_unpack _). vm_compute. exact I.
Defined.

Lemma superseded_callbacks_are_dropped_witness :
  ∃ s',
    completion c_hook swap_pending = (Normal tt, s') ∧
    (∀ e, e ∈ h_elsToRemove c_hook →
          subscriptions s' !! e_id e = None ∧
          e_ref e ∉ refs (main_elements s')) ∧
    (∀ cb ops,
       (∀ t, cb ∈ default [] (subscriptions swap_pending !! t) →
             t ∈ e_id <$> h_elsToRemove c_hook) →
       Forall (λ o, passes cb o = false) ops →
       EvCall cb ∉ log_since s' (run sample_host ops s')).
Proof.
  apply (superseded_callbacks_are_dropped sample_host c_hook swap_pending).
  - vm_compute. reflexivity.
  - apply (bool_decide_unpack _). vm_compute. exact I.
  - apply Forall_forall. apply (bool_decide_unpack _). vm_compute. exact I.
Defined.

Lemma unnamed_load_completes_witness :
  let id := resource_id sample_host "js" "c.js" in
  ∃ el s1,
    load sample_host "js" "c.js" (Some 3) (Some "") one_loaded
      = (Normal (Some el), s1) ∧
    onload s1 !! e_ref el = Some (Some (Hook el id [])) ∧
    ∀ s2,
      truthy (dataset s2 !! (e_ref el, "loaded")) = false →
      ∃ s3,
        completion (Hook el id []) s2 = (Normal tt, s3) ∧
        document s3 = document s2 ∧ frames s3 = frames s2 ∧
        log s3 =
          log s2 ++ [EvMarker (e_ref el) "loaded" "true"; EvPublish id]
                 ++ (EvCall <$> default [] (subscriptions s2 !! id))
                 ++ [EvClear id].
Proof.
  apply (unnamed_load_completes sample_host "js" "c.js" (Some 3) (Some "")
           one_loaded).
  - left. reflexivity.
  - reflexivity.
  - vm_compute. reflexivity.
Defined.

Lemma two_loads_one_completion_witness :
  let id := resource_id sample_host "css" "x.css" in
  ∃ el s1 s2 s3,
    load sample_host "css" "x.css" (Some 1) None one_loaded
      = (Normal (Some el), s1) ∧
    load sample_host "css" "x.css" (Some 2) None s1
      = (Normal (Some el), s2) ∧
    next_ref s2 = S (next_ref one_loaded) ∧
    document s2 = document s1 ∧
    count_id id (main_elements s2) = 1 ∧
    onload s2 !! e_ref el = Some (Some (Hook el id [])) ∧
    completion (Hook el id []) s2 = (Normal tt, s3) ∧
    log s3 =
      log s2 ++ [EvMarker (e_ref el) "loaded" "true"; EvPublish id]
             ++ (EvCall <$> default [] (subscriptions one_loaded !! id)
                              ++ [1; 2])
             ++ [EvClear id].
Proof.
  apply (two_loads_one_completion sample_host "css" "x.css" 1 2 one_loaded).
  - right. reflexivity.
  - vm_compute. reflexivity.
  - vm_compute. reflexivity.
Defined.

Lemma unload_then_load_creates_anew_witness :
  let id := resource_id sample_host "js" "a.js" in
  ∃ s1 el' s2,
    unload sample_host "js" "a.js" one_loaded = (Normal tt, s1) ∧
    find_id id (main_elements s1) = None ∧
    load sample_host "js" "a.js" (Some 4) (Some "main") s1
      = (Normal (Some el'), s2) ∧
    e_ref el' = next_ref one_loaded ∧
    (e_ref el' ∉ refs (main_elements one_loaded)) ∧
    el' ∈ main_elements s2 ∧
    count_id id (main_elements s2) = 1.
Proof.
  apply (unload_then_load_creates_anew sample_host "js" "a.js" (Some 4)
           (Some "main") a_js one_loaded).
  - left. reflexivity.
  - vm_compute. reflexivity.
  - vm_compute. constructor.
  - apply allocated_intro. apply (bool_decide_unpack _). vm_compute. exact I.
  - vm_compute. reflexivity.
Defined.

Lemma unload_drops_pending_callbacks_witness :
  (unload sample_host "js" "b.js" one_loaded).1 = Normal tt ∧
  EvCall 5 ∉ log_since (unload sample_host "js" "b.js" one_loaded).2
               (run sample_host [OpOnload 1; OpTimer 0]
                  (unload sample_host "js" "b.js" one_loaded).2).
Proof.
  apply (unload_drops_pending_callbacks sample_host "js" "b.js" b_js 5
           [OpOnload 1; OpTimer 0] one_loaded).
  - left. reflexivity.
  - vm_compute. reflexivity.
  - intros t Ht.
    replace (subscriptions one_loaded)
      with ({[resource_id sample_host "js" "b.js" := [5]]}
              : gmap string (list callback))
      by (vm_compute; reflexivity).
    rewrite lookup_singleton_ne by done. apply not_elem_of_nil.
  - repeat constructor.
Defined.

Lemma scripts_go_first_styles_go_last_witness :
  (∃ e1 s1 e2 s2,
     load sample_host "css" "a.css" None (Some "theme") one_loaded
       = (Normal (Some e1), s1) ∧
     load sample_host "css" "b.css" None None s1 = (Normal (Some e2), s2) ∧
     src e1 = (if bool_decide ("css" = "js") then "a.css" else "") ∧
     href e1 = (if bool_decide ("css" = "js") then "" else "a.css") ∧
     src e2 = (if bool_decide ("css" = "js") then "b.css" else "") ∧
     href e2 = (if bool_decide ("css" = "js") then "" else "b.css") ∧
     target_children (document s2) =
       (if bool_decide ("css" = "js")
        then e2 :: e1 :: target_children (document one_loaded)
        else target_children (document one_loaded) ++ [e1; e2]) ∧
     (is_Some (d_head (document s2))
      ↔ is_Some (d_head (document one_loaded)))) ∧
  (∃ e1 s1 e2 s2,
     load sample_host "js" "c.js" (Some 1) (Some "main") one_loaded
       = (Normal (Some e1), s1) ∧
     load sample_host "js" "d.js" (Some 2) None s1 = (Normal (Some e2), s2) ∧
     src e1 = (if bool_decide ("js" = "js") then "c.js" else "") ∧
     href e1 = (if bool_decide ("js" = "js") then "" else "c.js") ∧
     src e2 = (if bool_decide ("js" = "js") then "d.js" else "") ∧
     href e2 = (if bool_decide ("js" = "js") then "" else "d.js") ∧
     target_children (document s2) =
       (if bool_decide ("js" = "js")
        then e2 :: e1 :: target_children (document one_loaded)
        else target_children (document one_loaded) ++ [e1; e2]) ∧
     (is_Some (d_head (document s2))
      ↔ is_Some (d_head (document one_loaded)))).
Proof.
  split.
  - apply (scripts_go_first_styles_go_last sample_host "css" "a.css" "b.css"
             None None (Some "theme") None one_loaded).
    + right. reflexivity.
    + vm_compute. discriminate.
    + vm_compute. reflexivity.
    + vm_compute. reflexivity.
    + vm_compute. reflexivity.
    + vm_compute. reflexivity.
  - apply (scripts_go_first_styles_go_last sample_host "js" "c.js" "d.js"
             (Some 1) (Some 2) (Some "main") None one_loaded).
    + left. reflexivity.
    + vm_compute. discriminate.
    + vm_compute. reflexivity.
    + vm_compute. reflexivity.
    + vm_compute. reflexivity.
    + vm_compute. reflexivity.
Defined.

Lemma load_invokes_only_when_loaded_witness :
  ∃ l,
    log (load sample_host "js" "Aa" (Some 6) None collision_page).2
      = log collision_page ++ l ∧
    Forall (λ ev, is_call ev = false) l.
Proof.
  apply (load_invokes_only_when_loaded sample_host "js" "Aa" (Some 6) None
           collision_page).
  intros el Hel. vm_compute in Hel. injection Hel as <-.
  vm_compute. reflexivity.
Defined.

Lemma only_load_adds_resource_elements_witness :
  count_id (resource_id sample_host "js" "a.js")
    (main_elements
       (run sample_host [OpPrefetch "js" "a.js"; OpTimer 0] init)) ≤
  count_id (resource_id sample_host "js" "a.js") (main_elements init).
Proof.
  apply (only_load_adds_resource_elements sample_host "js" "a.js"
           [OpPrefetch "js" "a.js"; OpTimer 0] init).
  - left. reflexivity.
  - repeat constructor.
Defined.

Lemma prefetch_dedups_after_the_deferred_run_witness :
  let id := resource_id sample_host "js" "a.js" in
  let iframeEl := Element (next_ref init) "iframe" (iframe_id "js")
                          "" "" "" "" "" in
  let s1 := with_context "js" "a.js" id init in
  prefetch sample_host "js" "a.js" init = (Normal tt, s1) ∧
  prefetch sample_host "js" "a.js" s1 =
    (Normal tt,
     set_timers (timers s1 ++ [TPrefetch "js" "a.js" id iframeEl]) s1) ∧
  ∃ s2,
    run_timer sample_host (length (timers init)) s1 = (Normal tt, s2) ∧
    timers s2 = timers init ∧
    prefetch sample_host "js" "a.js" s2 = (Normal tt, s2).
Proof.
  apply (prefetch_dedups_after_the_deferred_run sample_host "js" "a.js" init).
  - left. reflexivity.
  - reflexivity.
  - reflexivity.
Defined.

Lemma truthy_markers_are_permanent_witness :
  dataset (run sample_host [OpUnload "js" "a.js"; OpOnload 0; OpTimer 0]
             one_loaded) !! (0, "loaded")
  = dataset one_loaded !! (0, "loaded").
Proof.
  apply (truthy_markers_are_permanent sample_host
           [OpUnload "js" "a.js"; OpOnload 0; OpTimer 0] (0, "loaded")
           one_loaded).
  vm_compute. reflexivity.
Defined.
